(** * trolljitrs: the reaction engine of [troll.go] and [handle_message.go]

    A shallow embedding of the [Troll] type and its methods.  The Telegram
    client ([tg.Client], [message.Sender]) and the logger are external
    collaborators: every call made on them is recorded, in order, in a
    trace, and the answers of the transport are given by an oracle that may
    depend on everything that happened before the call. *)

From Stdlib Require Import ZArith List String Bool Lia.
Import ListNotations.

Local Open Scope string_scope.
Local Open Scope list_scope.
Local Open Scope Z_scope.

(** ** Go errors *)

(** A Go [error] value.  [nil] is [None] of [option error].
    [Errorf format] is [xerrors.Errorf(format, ...)] for a format without
    [%w] (its operands are only text); [Wrapf format w] is the same call for
    a format that ends in [%w], with [w] the wrapped error.  Operands other
    than the [%w] one are not kept: a value stands for the format and the
    wrapped chain, so two errors that differ only in the text of their
    operands are the same value here.  [Panic] stands for a run-time
    panic, which no path of the program reaches. *)
Inductive error : Type :=
| Canceled
| DeadlineExceeded
| RemoteErr (what : string)
| Panic (what : string)
| Errorf (format : string)
| Wrapf (format : string) (wrapped : error).

(** [errors.Unwrap] iterated to the innermost error. *)
Fixpoint root_cause (e : error) : error :=
  match e with
  | Wrapf _ w => root_cause w
  | _ => e
  end.

(** ** The [tg] values the program touches *)

Record InputPeerUser := mkInputPeerUser {
  ipu_UserID : Z;
  ipu_AccessHash : Z
}.

(** Zero value [tg.InputPeerUser{}]. *)
Definition InputPeerUser_zero : InputPeerUser := mkInputPeerUser 0 0.

(** Implementations of [tg.InputPeerClass]. *)
Inductive InputPeerClass : Type :=
| InputPeerEmpty
| InputPeerSelf
| InputPeerChat (chat_id : Z)
| InputPeerUserPtr (u : InputPeerUser)
| InputPeerChannel (channel_id access_hash : Z).

(** Implementations of [tg.PeerClass]. *)
Inductive PeerClass : Type :=
| PeerUser (user_id : Z)
| PeerChat (chat_id : Z)
| PeerChannel (channel_id : Z).

Record Message := mkMessage {
  msg_Out : bool;
  msg_ID : Z;
  msg_PeerID : PeerClass;
  msg_Message : string;
  msg_Date : Z
}.

(** Implementations of [tg.MessageClass]. *)
Inductive MessageClass : Type :=
| MessageEmpty (id : Z)
| MessagePtr (m : Message)
| MessageService (id : Z) (out : bool) (peer : PeerClass).

Record UpdateNewMessage := mkUpdateNewMessage {
  upd_Message : MessageClass;
  upd_Pts : Z;
  upd_PtsCount : Z
}.

Record Document := mkDocument {
  doc_ID : Z;
  doc_AccessHash : Z;
  doc_FileReference : list Byte.byte;
  doc_MimeType : string;
  doc_Size : Z;
  doc_DCID : Z
}.

(** Zero value [tg.Document{}]. *)
Definition Document_zero : Document := mkDocument 0 0 [] "" 0 0.

(** Implementations of [tg.DocumentClass]. *)
Inductive DocumentClass : Type :=
| DocumentEmpty (id : Z)
| DocumentPtr (d : Document).

(** [DocumentClass.AsNotEmpty]. *)
Definition AsNotEmpty (d : DocumentClass) : option Document :=
  match d with
  | DocumentEmpty _ => None
  | DocumentPtr doc => Some doc
  end.

Record InputDocumentFileLocation := mkInputDocumentFileLocation {
  loc_ID : Z;
  loc_AccessHash : Z;
  loc_FileReference : list Byte.byte;
  loc_ThumbSize : string
}.

(** [Document.AsInputDocumentFileLocation]. *)
Definition AsInputDocumentFileLocation (d : Document) : InputDocumentFileLocation :=
  mkInputDocumentFileLocation (doc_ID d) (doc_AccessHash d) (doc_FileReference d) "".

Record MessagesStickerSet := mkMessagesStickerSet {
  set_ShortName : string;
  set_Documents : list DocumentClass
}.

(** ** What the program does to the outside: log entries and remote calls *)

Inductive Level : Type := InfoLevel | WarnLevel.

Inductive Field : Type :=
| FString (key value : string)
| FInt (key : string) (value : Z)
| FTime (key : string) (unix : Z)
| FError (e : error).

Inductive Call : Type :=
| CallResolveUser (domain : string)
| CallGetStickerSet (short_name : string)
| CallUpdateStatus (offline : bool)
| CallReplyDocument (to : InputPeerUser) (reply_to : Z) (file : InputDocumentFileLocation)
| CallForwardIDs (from : InputPeerUser) (id : Z)
| CallRevokeMessages (id : Z).

Inductive Event : Type :=
| Log (lvl : Level) (msg : string) (fields : list Field)
| Remote (c : Call)
| NewTicker (period : Z).

Definition Trace := list Event.

(** The warnings of a trace, in order. *)
Fixpoint warnings_of (tr : Trace) : list string :=
  match tr with
  | [] => []
  | Log WarnLevel msg _ :: rest => msg :: warnings_of rest
  | _ :: rest => warnings_of rest
  end.

(** The remote calls of a trace, in order. *)
Fixpoint calls_of (tr : Trace) : list Call :=
  match tr with
  | [] => []
  | Remote c :: rest => c :: calls_of rest
  | _ :: rest => calls_of rest
  end.

(** The transport.  Each operation gets the trace up to (and including) the
    call itself; since every call extends the trace, any sequence of answers
    is the behaviour of some oracle.  The [ctx] argument of the Go calls is
    only handed to the transport and is part of what the oracle stands for. *)
Record Transport := mkTransport {
  ask_resolve : Trace -> string -> error + InputPeerClass;
  ask_sticker_set : Trace -> string -> error + MessagesStickerSet;
  ask_update_status : Trace -> bool -> option error;
  ask_reply : Trace -> InputPeerUser -> Z -> InputDocumentFileLocation -> option error;
  ask_forward : Trace -> InputPeerUser -> Z -> option error;
  ask_revoke : Trace -> Z -> option error
}.

(** ** [rate.Limiter] as configured by [NewTroll]

    The limit is kept as the interval between two events (the argument of
    [rate.Every], in nanoseconds) rather than as its floating reciprocal. *)
Record Limiter := mkLimiter {
  lim_every : Z;
  lim_burst : Z;
  lim_tokens : Z;
  lim_last : Z
}.

Definition Second : Z := 1000000000.
Definition Minute : Z := 60 * Second.

(** [rate.NewLimiter(rate.Every(d), b)]. *)
Definition NewLimiter (every burst : Z) : Limiter := mkLimiter every burst 0 0.

(** ** The [Troll] struct

    [raw], [sender] and [logger] are handles on the collaborators and carry
    no state of the program; the two mutexes guard [resolved] and [sticker]
    and are invisible in a sequential run. *)
Record Troll := mkTroll {
  domain : string;
  stickerSet : string;
  resolved : option InputPeerUser;
  sticker : option Document;
  limiter : Limiter
}.

Definition NewTroll (domain stickerSet : string) : Troll :=
  mkTroll domain stickerSet None None (NewLimiter (15 * Second) 1).

Definition set_resolved (t : Troll) (r : option InputPeerUser) : Troll :=
  mkTroll (domain t) (stickerSet t) r (sticker t) (limiter t).

Definition set_sticker (t : Troll) (d : option Document) : Troll :=
  mkTroll (domain t) (stickerSet t) (resolved t) d (limiter t).

Definition set_limiter (t : Troll) (l : Limiter) : Troll :=
  mkTroll (domain t) (stickerSet t) (resolved t) (sticker t) l.

(** ** Program state and its monad *)

Record State := mkState {
  troll : Troll;
  trace : Trace;
  draws : nat
}.

Definition M (A : Type) : Type := State -> A * State.

Definition ret {A} (a : A) : M A := fun s => (a, s).

Definition bind {A B} (m : M A) (k : A -> M B) : M B :=
  fun s => let (a, s') := m s in k a s'.

Declare Scope go_scope.
Delimit Scope go_scope with go.
Notation "x <- m ;; k" := (bind m (fun x => k))
  (at level 61, m at next level, right associativity) : go_scope.
Notation "m ;;; k" := (bind m (fun _ => k))
  (at level 61, right associativity) : go_scope.
Local Open Scope go_scope.

Definition get_troll : M Troll := fun s => (troll s, s).

Definition put_troll (t : Troll) : M unit :=
  fun s => (tt, mkState t (trace s) (draws s)).

Definition emit (e : Event) : M unit :=
  fun s => (tt, mkState (troll s) (trace s ++ [e]) (draws s)).

Definition logInfo (msg : string) (fields : list Field) : M unit :=
  emit (Log InfoLevel msg fields).

Definition logWarn (msg : string) (fields : list Field) : M unit :=
  emit (Log WarnLevel msg fields).

(** A remote call: the call is recorded, then the oracle answers from the
    trace that now ends with it. *)
Definition remote {A} (c : Call) (answer : Trace -> A) : M A :=
  fun s => let tr' := trace s ++ [Remote c] in
           (answer tr', mkState (troll s) tr' (draws s)).

(** Which arm a [select] over [ctx.Done()] and [ticker.C] takes.  The
    [ctx.Done()] arm carries the value [ctx.Err()] has once the context is
    done. *)
Inductive Select : Type :=
| CtxDone (err : error)
| TickerC.

(** Whether a function that may block forever has returned. *)
Inductive Outcome : Type :=
| Blocked
| Returns (err : option error).

(** A goroutine started with [g.Go]. *)
Inductive Task : Type :=
| Launched
| Looping
| Finished (err : option error).

Inductive TaskId : Type := SetupTask | StatusTask.

(** Where the goroutine that called [Run] stands. *)
Inductive MainPc : Type :=
| AtCtxDone
| AtWait
| RunReturned (err : option error).

(** The state of one call of [Run]: the program state, the context given by
    the caller ([rc_parent], its [Err()]), the context derived by
    [errgroup.WithContext] ([rc_ctx], its [Err()]), the error kept by the
    group's [errOnce], both goroutines, the caller, and the order in which
    the goroutines left. *)
Record RunState := mkRunState {
  rc_prog : State;
  rc_parent : option error;
  rc_ctx : option error;
  rc_gerr : option error;
  rc_setup : Task;
  rc_status : option Task;
  rc_main : MainPc;
  rc_exits : list (TaskId * option error)
}.

(** What can happen next during [Run]:
    - [ExternalCancel reason]: the caller's context becomes done with
      [reason], and with it the derived context unless that is done already;
    - [SetupRuns]: the goroutine of [setup] runs to its end and leaves the
      group;
    - [StatusEnters]: the goroutine of [statusLoop] logs and starts its
      ticker;
    - [StatusTicks]: its [select] takes the [ticker.C] arm;
    - [StatusSeesDone]: its [select] takes the [ctx.Done()] arm, which needs
      the derived context done, and the goroutine leaves the group with
      [ctx.Err()] wrapped;
    - [MainSeesDone]: [Run] gets past its [<-ctx.Done()], which needs the
      derived context done;
    - [MainWaitReturns]: [g.Wait()] returns the group's error, which needs
      every goroutine of the group gone. *)
Inductive RunStep : Type :=
| ExternalCancel (reason : error)
| SetupRuns
| StatusEnters
| StatusTicks
| StatusSeesDone
| MainSeesDone
| MainWaitReturns.

(** Cancelling a context that is already done changes nothing. *)
Definition cancel_with (reason : error) (ctx : option error) : option error :=
  match ctx with
  | Some r => Some r
  | None => Some reason
  end.

(** The wrapper [g.Go] puts around a task: the first non-nil error is kept
    and cancels the derived context; then the task is counted as done. *)
Definition group_exit (id : TaskId) (err : option error) (s : RunState) : RunState :=
  match err, rc_gerr s with
  | Some e, None =>
      mkRunState (rc_prog s) (rc_parent s) (cancel_with Canceled (rc_ctx s)) (Some e)
                 (rc_setup s) (rc_status s) (rc_main s) (rc_exits s ++ [(id, err)])
  | _, _ =>
      mkRunState (rc_prog s) (rc_parent s) (rc_ctx s) (rc_gerr s)
                 (rc_setup s) (rc_status s) (rc_main s) (rc_exits s ++ [(id, err)])
  end.

Definition with_prog (s : RunState) (p : State) : RunState :=
  mkRunState p (rc_parent s) (rc_ctx s) (rc_gerr s)
             (rc_setup s) (rc_status s) (rc_main s) (rc_exits s).

Definition with_setup (s : RunState) (t : Task) : RunState :=
  mkRunState (rc_prog s) (rc_parent s) (rc_ctx s) (rc_gerr s)
             t (rc_status s) (rc_main s) (rc_exits s).

Definition with_status (s : RunState) (t : Task) : RunState :=
  mkRunState (rc_prog s) (rc_parent s) (rc_ctx s) (rc_gerr s)
             (rc_setup s) (Some t) (rc_main s) (rc_exits s).

Definition with_main (s : RunState) (pc : MainPc) : RunState :=
  mkRunState (rc_prog s) (rc_parent s) (rc_ctx s) (rc_gerr s)
             (rc_setup s) (rc_status s) pc (rc_exits s).

(** [if err != nil { return xerrors.Errorf(format, err) }; return nil]. *)
Definition wrap_nonnil (format : string) (err : option error) : option error :=
  match err with
  | Some e => Some (Wrapf format e)
  | None => None
  end.

Definition task_done (t : option Task) : bool :=
  match t with
  | None => true
  | Some (Finished _) => true
  | Some _ => false
  end.

Section Program.

Variable net : Transport.

(** The global source of [math/rand]: the [n]-th draw of the process. *)
Variable rnd : nat -> Z.

(** [rand.Int()]: a non-negative 63-bit integer. *)
Definition randInt : M Z :=
  fun s => (rnd (draws s) mod 2 ^ 63,
            mkState (troll s) (trace s) (S (draws s))).

(** *** troll.go *)

Definition checkUserID (id : Z) : M (InputPeerUser * bool) :=
  t <- get_troll ;;
  match resolved t with
  | None => ret (InputPeerUser_zero, false)
  | Some r =>
      if negb (ipu_UserID r =? id) then ret (InputPeerUser_zero, false)
      else ret (r, true)
  end.

Definition checkSticker : M (Document * bool) :=
  t <- get_troll ;;
  match sticker t with
  | None => ret (Document_zero, false)
  | Some d => ret (d, true)
  end.

Definition getSticker : M (option error) :=
  t <- get_troll ;;
  r <- remote (CallGetStickerSet (stickerSet t))
              (fun h => ask_sticker_set net h (stickerSet t)) ;;
  match r with
  | inl _ => ret (Some (Errorf "get sticker set %q"))
  | inr set =>
      let docs := set_Documents set in
      if Z.of_nat (List.length docs) <? 1 then
        ret (Some (Errorf "sticker set is empty %v"))
      else
        match nth_error docs (List.length docs - 1)%nat with
        | None => ret (Some (Panic "index out of range"))
        | Some last =>
            match AsNotEmpty last with
            | None => ret (Some (Errorf "last sticker is empty document %v"))
            | Some sticker =>
                t <- get_troll ;;
                put_troll (set_sticker t (Some sticker)) ;;;
                logInfo "Got sticker set" [FString "stickerset" (stickerSet t)] ;;;
                ret None
            end
        end
  end.

Definition getUser : M (option error) :=
  t <- get_troll ;;
  r <- remote (CallResolveUser (domain t))
              (fun h => ask_resolve net h (domain t)) ;;
  match r with
  | inl err => ret (Some (Wrapf "resolve %q: %w" err))
  | inr (InputPeerUserPtr userPeer) =>
      t <- get_troll ;;
      put_troll (set_resolved t (Some userPeer)) ;;;
      logInfo "Got user" [FString "user" (domain t)] ;;;
      ret None
  | inr _ => ret (Some (Errorf "unexpected type %T"))
  end.

Definition setup : M (option error) :=
  err <- getUser ;;
  match err with
  | Some e => ret (Some (Wrapf "get user: %w" e))
  | None =>
      err <- getSticker ;;
      match err with
      | Some e => logWarn "Get sticker failed" [FError e]
      | None => ret tt
      end ;;;
      ret None
  end.

(** The [case <-ticker.C] arm of [statusLoop]. *)
Definition statusLoop_tick : M unit :=
  err <- remote (CallUpdateStatus false)
                (fun h => ask_update_status net h false) ;;
  match err with
  | Some e => logWarn "Got error" [FError e]
  | None => ret tt
  end.

(** The [for { select { ... } }] of [statusLoop], driven by the arms the
    successive [select]s take.  When the arms run out the loop is blocked
    in its [select] and has not returned. *)
Fixpoint statusLoop_for (arms : list Select) : M Outcome :=
  match arms with
  | [] => ret Blocked
  | CtxDone err :: _ => ret (Returns (Some err))
  | TickerC :: rest => statusLoop_tick ;;; statusLoop_for rest
  end.

Definition statusLoop_enter : M unit :=
  logInfo "Run update status loop" [] ;;;
  emit (NewTicker (2 * Minute)).

Definition statusLoop (arms : list Select) : M Outcome :=
  statusLoop_enter ;;;
  statusLoop_for arms.

(** [Run] up to its [<-ctx.Done()]: the derived context starts as the
    caller's, [setup] is launched and, when asked for, [statusLoop]. *)
Definition Run_start (statusLoop : bool) (p : State) : RunState :=
  mkRunState p None None None Launched
             (if statusLoop then Some Launched else None) AtCtxDone [].

(** One step of [Run]; [None] when the step cannot be taken in [s].  The
    body of [setup] runs as one step; [statusLoop] takes one [select] arm
    per step. *)
Definition Run_step (st : RunStep) (s : RunState) : option RunState :=
  match st with
  | ExternalCancel reason =>
      match rc_parent s with
      | Some _ => None
      | None =>
          Some (mkRunState (rc_prog s) (Some reason) (cancel_with reason (rc_ctx s))
                           (rc_gerr s) (rc_setup s) (rc_status s) (rc_main s)
                           (rc_exits s))
      end
  | SetupRuns =>
      match rc_setup s with
      | Launched =>
          let r := setup (rc_prog s) in
          let err := wrap_nonnil "setup: %w" (fst r) in
          Some (group_exit SetupTask err
                  (with_setup (with_prog s (snd r)) (Finished err)))
      | _ => None
      end
  | StatusEnters =>
      match rc_status s with
      | Some Launched =>
          Some (with_status (with_prog s (snd (statusLoop_enter (rc_prog s)))) Looping)
      | _ => None
      end
  | StatusTicks =>
      match rc_status s with
      | Some Looping => Some (with_prog s (snd (statusLoop_tick (rc_prog s))))
      | _ => None
      end
  | StatusSeesDone =>
      match rc_status s, rc_ctx s with
      | Some Looping, Some reason =>
          let err := wrap_nonnil "status loop: %w" (Some reason) in
          Some (group_exit StatusTask err (with_status s (Finished err)))
      | _, _ => None
      end
  | MainSeesDone =>
      match rc_main s, rc_ctx s with
      | AtCtxDone, Some _ => Some (with_main s AtWait)
      | _, _ => None
      end
  | MainWaitReturns =>
      match rc_main s with
      | AtWait =>
          if task_done (Some (rc_setup s)) && task_done (rc_status s)
          then Some (with_main s (RunReturned (rc_gerr s)))
          else None
      | _ => None
      end
  end.

Fixpoint Run_steps (sched : list RunStep) (s : RunState) : option RunState :=
  match sched with
  | [] => Some s
  | st :: rest =>
      match Run_step st s with
      | Some s' => Run_steps rest s'
      | None => None
      end
  end.

(** [Run] under a schedule of its goroutines. *)
Definition Run (statusLoop : bool) (sched : list RunStep) (p : State)
  : option RunState :=
  Run_steps sched (Run_start statusLoop p).

(** *** handle_message.go *)

Definition ignored (resolved : InputPeerUser) (msgID : Z) (sticker : Document)
  : M (option error) :=
  logInfo "Answer sticker" [FInt "msg_id" msgID] ;;;
  remote (CallReplyDocument resolved msgID (AsInputDocumentFileLocation sticker))
         (fun h => ask_reply net h resolved msgID (AsInputDocumentFileLocation sticker)).

Definition revoke (resolved : InputPeerUser) (msgID : Z) : M (option error) :=
  logInfo "Delete message" [FInt "msg_id" msgID] ;;;
  err <- remote (CallForwardIDs resolved msgID)
                (fun h => ask_forward net h resolved msgID) ;;
  match err with
  | Some e => logWarn "Forward failed" [FError e]
  | None => ret tt
  end ;;;
  remote (CallRevokeMessages msgID) (fun h => ask_revoke net h msgID).

Definition OnNewMessage (update : UpdateNewMessage) : M (option error) :=
  match upd_Message update with
  | MessagePtr msg =>
      if msg_Out msg then ret None
      else
        match msg_PeerID msg with
        | PeerUser uid =>
            ro <- checkUserID uid ;;
            let (resolved, ok) := ro : InputPeerUser * bool in
            if negb ok then ret None
            else
              logInfo "Got message"
                      [FString "text" (msg_Message msg); FTime "date" (msg_Date msg)] ;;;
              so <- checkSticker ;;
              let (sticker, ok) := so : Document * bool in
              reply <- (if ok then r <- randInt ;; ret (Z.rem r 2 =? 0)
                        else ret false) ;;
              if reply then ignored resolved (msg_ID msg) sticker
              else revoke resolved (msg_ID msg)
        | _ => ret None
        end
  | _ => ret None
  end.

End Program.

(** ** The specification's vocabulary *)

(** The admission filter of the Message Reactor, as the specification lists
    it: a plain message, not outgoing, from an individual-user peer, whose
    user identifier is the one of the resolved target. *)
Definition admitted (t : Troll) (update : UpdateNewMessage)
                    (msg : Message) (target : InputPeerUser) : Prop :=
  upd_Message update = MessagePtr msg /\
  msg_Out msg = false /\
  msg_PeerID msg = PeerUser (ipu_UserID target) /\
  resolved t = Some target.

(** The log entry that opens the log-and-dispatch step. *)
Definition got_message (msg : Message) : Event :=
  Log InfoLevel "Got message"
      [FString "text" (msg_Message msg); FTime "date" (msg_Date msg)].

(** The two actions of the reactor. *)
Inductive Action : Type :=
| IgnoredWithAsset (asset : Document)
| Revoke.

(** The dispatch decision, as the specification words it: the asset reply
    when an asset is cached and the drawn bit is the designated one (0),
    the revoke action otherwise. *)
Definition decision (cached : option Document) (bit : Z) : Action :=
  match cached with
  | Some asset => if bit =? 0 then IgnoredWithAsset asset else Revoke
  | None => Revoke
  end.

(** The remote calls an action consists of. *)
Definition action_calls (target : InputPeerUser) (msgID : Z) (a : Action) : list Call :=
  match a with
  | IgnoredWithAsset asset =>
      [CallReplyDocument target msgID (AsInputDocumentFileLocation asset)]
  | Revoke => [CallForwardIDs target msgID; CallRevokeMessages msgID]
  end.

(** The warning [revoke] logs for the answer of the forward call. *)
Definition forward_warning (answer : option error) : Trace :=
  match answer with
  | Some e => [Log WarnLevel "Forward failed" [FError e]]
  | None => []
  end.

(** The bit [OnNewMessage] derives from [rand.Int()] in state [s]. *)
Definition drawn_bit (rnd : nat -> Z) (s : State) : Z :=
  Z.rem (rnd (draws s) mod 2 ^ 63) 2.

(** The state in which the dispatched action starts: the message is
    logged, and a draw is consumed exactly when an asset is cached. *)
Definition at_dispatch (msg : Message) (s : State) : State :=
  mkState (troll s) (trace s ++ [got_message msg])
          (match sticker (troll s) with
           | Some _ => S (draws s)
           | None => draws s
           end).

(** Running an action with the function of [handle_message.go] that
    implements it. *)
Definition perform (net : Transport) (target : InputPeerUser) (msgID : Z) (a : Action)
  : M (option error) :=
  match a with
  | IgnoredWithAsset asset => ignored net target msgID asset
  | Revoke => revoke net target msgID
  end.

(** The answer identity resolution gets when [getUser] runs in [s]. *)
Definition resolution (net : Transport) (s : State) : error + InputPeerClass :=
  ask_resolve net (trace s ++ [Remote (CallResolveUser (domain (troll s)))])
              (domain (troll s)).

(** Identity resolution fails: the transport answers with an error, or with
    a peer that is not a user. *)
Definition resolution_fails (net : Transport) (s : State) : Prop :=
  forall u, resolution net s <> inr (InputPeerUserPtr u).

(** The answer the sticker-set fetch gets when [getSticker] runs in [s]. *)
Definition fetched (net : Transport) (s : State) : error + MessagesStickerSet :=
  ask_sticker_set net (trace s ++ [Remote (CallGetStickerSet (stickerSet (troll s)))])
                  (stickerSet (troll s)).

(** The three ways asset acquisition fails, in the specification's words. *)
Inductive AssetFailure : Type :=
| FetchError
| EmptyCollection
| MalformedLast.

(** Asset acquisition as the specification words it: the last item of the
    fetched collection, when there is one and it is well-formed. *)
Definition acquisition (r : error + MessagesStickerSet) : AssetFailure + Document :=
  match r with
  | inl _ => inl FetchError
  | inr set =>
      match rev (set_Documents set) with
      | [] => inl EmptyCollection
      | DocumentEmpty _ :: _ => inl MalformedLast
      | DocumentPtr d :: _ => inr d
      end
  end.

(** The error [getSticker] builds for each failure. *)
Definition acquisition_error (why : AssetFailure) : error :=
  match why with
  | FetchError => Errorf "get sticker set %q"
  | EmptyCollection => Errorf "sticker set is empty %v"
  | MalformedLast => Errorf "last sticker is empty document %v"
  end.

(** The warning [statusLoop] logs for the answer of a presence call. *)
Definition status_warning (answer : option error) : Trace :=
  match answer with
  | Some e => [Log WarnLevel "Got error" [FError e]]
  | None => []
  end.

(** In the events [ev] appended to the trace [base], every presence call
    the transport answered with an error is followed at once by the warning
    that carries the error. *)
Definition failures_logged (net : Transport) (base ev : Trace) : Prop :=
  forall pre post e,
    ev = pre ++ Remote (CallUpdateStatus false) :: post ->
    ask_update_status net (base ++ pre ++ [Remote (CallUpdateStatus false)]) false = Some e ->
    exists post', post = Log WarnLevel "Got error" [FError e] :: post'.

(** The same program state with another state of the rate limiter. *)
Definition relimit (lim : Limiter) (s : State) : State :=
  mkState (set_limiter (troll s) lim) (trace s) (draws s).

Definition is_reply (c : Call) : bool :=
  match c with CallReplyDocument _ _ _ => true | _ => false end.

(** The events a run appended to the trace. *)
Definition appended (before after : State) : Trace :=
  skipn (List.length (trace before)) (trace after).

(** The first non-nil error among the goroutines, in the order they left. *)
Fixpoint first_error (exits : list (TaskId * option error)) : option error :=
  match exits with
  | [] => None
  | (_, Some e) :: _ => Some e
  | (_, None) :: rest => first_error rest
  end.

(** The first [ctx.Done()] arm of a sequence of [select] arms, and the
    number of [ticker.C] arms before it. *)
Fixpoint first_done (arms : list Select) : option error :=
  match arms with
  | [] => None
  | CtxDone err :: _ => Some err
  | TickerC :: rest => first_done rest
  end.

Fixpoint ticks_before_done (arms : list Select) : nat :=
  match arms with
  | [] => 0%nat
  | CtxDone _ :: _ => 0%nat
  | TickerC :: rest => S (ticks_before_done rest)
  end.

(** The outcome of a loop that leaves at the first [ctx.Done()] arm. *)
Definition loop_outcome (arms : list Select) : Outcome :=
  match first_done arms with
  | Some err => Returns (Some err)
  | None => Blocked
  end.

(** The state of a goroutine of the group; [None] when it was not launched. *)
Definition task_state (s : RunState) (id : TaskId) : option Task :=
  match id with
  | SetupTask => Some (rc_setup s)
  | StatusTask => rc_status s
  end.

(** What a goroutine can hand to the group when it leaves: [setup]'s result
    with a non-nil error wrapped, or the wrapped [Err()] of the derived
    context. *)
Definition exit_shape (net : Transport) (ctx : option error)
                      (x : TaskId * option error) : Prop :=
  match fst x with
  | SetupTask => exists p, snd x = wrap_nonnil "setup: %w" (fst (setup net p))
  | StatusTask =>
      exists reason, ctx = Some reason /\ snd x = Some (Wrapf "status loop: %w" reason)
  end.

(** What holds in every state [Run] can be in. *)
Definition Run_inv (net : Transport) (s : RunState) : Prop :=
  rc_gerr s = first_error (rc_exits s) /\
  (rc_ctx s <> None <-> rc_parent s <> None \/ rc_gerr s <> None) /\
  (rc_main s <> AtCtxDone -> rc_ctx s <> None) /\
  (forall r, rc_main s = RunReturned r ->
             r = rc_gerr s /\
             task_done (Some (rc_setup s)) = true /\
             task_done (rc_status s) = true) /\
  (forall id err, In (id, err) (rc_exits s) <-> task_state s id = Some (Finished err)) /\
  Forall (exit_shape net (rc_ctx s)) (rc_exits s) /\
  rc_setup s <> Looping.

(** The steps that take [Run] from [s] to its return once the derived
    context is done. *)
Definition drain (s : RunState) : list RunStep :=
  match rc_setup s with
  | Launched => [SetupRuns]
  | _ => []
  end ++
  match rc_status s with
  | Some Launched => [StatusEnters; StatusSeesDone]
  | Some Looping => [StatusSeesDone]
  | _ => []
  end ++
  match rc_main s with
  | AtCtxDone => [MainSeesDone; MainWaitReturns]
  | AtWait => [MainWaitReturns]
  | RunReturned _ => []
  end.

(** [Run] blocks until the external cancellation signal fires: whenever it
    has returned, the caller's context is done. *)
Definition Run_blocks_until_external_cancel : Prop :=
  forall net statusLoop sched p s r,
    Run net statusLoop sched p = Some s ->
    rc_main s = RunReturned r ->
    rc_parent s <> None.

(** ** Sample collaborators and inputs *)

Definition target42 : InputPeerUser := mkInputPeerUser 42 7.

Definition doc_a : Document := mkDocument 11 101 [] "image/webp" 2048 2.
Definition doc_b : Document := mkDocument 12 102 [] "image/webp" 4096 2.
Definition doc_c : Document := mkDocument 13 103 [] "image/webp" 1024 2.

Definition collection3 : list DocumentClass :=
  [DocumentPtr doc_a; DocumentPtr doc_b; DocumentPtr doc_c].

(** A transport on which every call succeeds. *)
Definition net_ok : Transport :=
  mkTransport (fun _ _ => inr (InputPeerUserPtr target42))
              (fun _ name => inr (mkMessagesStickerSet name collection3))
              (fun _ _ => None)
              (fun _ _ _ _ => None)
              (fun _ _ _ => None)
              (fun _ _ => None).

(** A transport that resolves the target but has an empty sticker set and
    fails every later call. *)
Definition net_flaky : Transport :=
  mkTransport (fun _ _ => inr (InputPeerUserPtr target42))
              (fun _ name => inr (mkMessagesStickerSet name []))
              (fun _ _ => Some (RemoteErr "FLOOD_WAIT"))
              (fun _ _ _ _ => Some (RemoteErr "MEDIA_EMPTY"))
              (fun _ _ _ => Some (RemoteErr "MESSAGE_ID_INVALID"))
              (fun _ _ => Some (RemoteErr "MESSAGE_DELETE_FORBIDDEN")).

(** A transport on which the target cannot be resolved. *)
Definition net_down : Transport :=
  mkTransport (fun _ _ => inl (RemoteErr "USERNAME_NOT_OCCUPIED"))
              (fun _ _ => inl (RemoteErr "STICKERSET_INVALID"))
              (fun _ _ => None)
              (fun _ _ _ _ => None)
              (fun _ _ _ => None)
              (fun _ _ => None).

Definition rnd_even : nat -> Z := fun _ => 4.
Definition rnd_odd : nat -> Z := fun _ => 7.

Definition fresh : State := mkState (NewTroll "jitrs" "trolls") [] 0.

(** The store once the target is resolved, without and with a cached asset. *)
Definition ready : State :=
  mkState (set_resolved (NewTroll "jitrs" "trolls") (Some target42)) [] 0.

Definition armed : State :=
  mkState (set_sticker (troll ready) (Some doc_c)) [] 0.

Definition hi_from (uid date : Z) : UpdateNewMessage :=
  mkUpdateNewMessage (MessagePtr (mkMessage false 1001 (PeerUser uid) "hi" date)) 1 1.

Definition hi42 : Message := mkMessage false 1001 (PeerUser 42) "hi" 1700000000.

(** A run of [Run] with the status loop: setup, one tick, then the caller
    cancels and everything drains. *)
Definition sample_schedule : list RunStep :=
  [SetupRuns; StatusEnters; StatusTicks; ExternalCancel Canceled;
   StatusSeesDone; MainSeesDone; MainWaitReturns].

Definition sample_final : RunState :=
  Eval vm_compute in
    match Run net_ok true sample_schedule fresh with
    | Some s => s
    | None => Run_start true fresh
    end.

(** The number of identity-resolution calls in a trace. *)
Fixpoint count_resolve (tr : Trace) : nat :=
  match tr with
  | [] => 0%nat
  | Remote (CallResolveUser _) :: rest => S (count_resolve rest)
  | _ :: rest => count_resolve rest
  end.

(** While the group holds no error the derived context is done only through
    the caller's; the error the group holds is [setup]'s, wrapped, or the
    loop's wrapping of the reason the caller's context was done with. *)
Definition Run_cause_inv (s : RunState) : Prop :=
  (rc_gerr s = None -> rc_ctx s = rc_parent s) /\
  (forall e, rc_gerr s = Some e ->
             (exists e', e = Wrapf "setup: %w" e') \/
             (exists reason, e = Wrapf "status loop: %w" reason /\
                             rc_parent s = Some reason)).

(** What holds during [Run] without the status loop, started in [p]. *)
Definition Run_noloop_inv (net : Transport) (p : State) (s : RunState) : Prop :=
  rc_status s = None /\
  match rc_setup s with
  | Launched => rc_prog s = p /\ rc_gerr s = None
  | Looping => False
  | Finished err =>
      err = wrap_nonnil "setup: %w" (fst (setup net p)) /\
      rc_prog s = snd (setup net p) /\
      rc_gerr s = err
  end.

(** 1 once the goroutine of [setup] has left, 0 before. *)
Definition setup_finished (s : RunState) : nat :=
  match rc_setup s with
  | Finished _ => 1%nat
  | _ => 0%nat
  end.

(** A transport on which the sticker-set fetch times out. *)
Definition net_timeout : Transport :=
  mkTransport (fun _ _ => inr (InputPeerUserPtr target42))
              (fun _ _ => inl (RemoteErr "TIMEOUT"))
              (fun _ _ => None)
              (fun _ _ _ _ => None)
              (fun _ _ _ => None)
              (fun _ _ => None).

(** A transport whose sticker set is an empty document followed by a
    sticker. *)
Definition net_pair : Transport :=
  mkTransport (fun _ _ => inr (InputPeerUserPtr target42))
              (fun _ name => inr (mkMessagesStickerSet name [DocumentEmpty 9; DocumentPtr doc_c]))
              (fun _ _ => None)
              (fun _ _ _ _ => None)
              (fun _ _ _ => None)
              (fun _ _ => None).

(** A run of [Run] without the status loop: setup, then the caller
    cancels. *)
Definition quiet_schedule : list RunStep :=
  [SetupRuns; ExternalCancel Canceled; MainSeesDone; MainWaitReturns].

Definition quiet_final : RunState :=
  Eval vm_compute in
    match Run net_ok false quiet_schedule fresh with
    | Some s => s
    | None => Run_start false fresh
    end.

(** Two transports whose sticker sets end with the same empty document. *)
Definition net_hollow : Transport :=
  mkTransport (fun _ _ => inr (InputPeerUserPtr target42))
              (fun _ name => inr (mkMessagesStickerSet name [DocumentEmpty 9]))
              (fun _ _ => None)
              (fun _ _ _ _ => None)
              (fun _ _ _ => None)
              (fun _ _ => None).

Definition net_hollow3 : Transport :=
  mkTransport (fun _ _ => inr (InputPeerUserPtr target42))
              (fun _ _ => inr (mkMessagesStickerSet "others"
                                 [DocumentPtr doc_a; DocumentPtr doc_b; DocumentEmpty 9]))
              (fun _ _ => None)
              (fun _ _ _ _ => None)
              (fun _ _ _ => None)
              (fun _ _ => None).

(** ** Properties *)

Ltac go_unfold :=
  unfold bind, ret, get_troll, put_troll, logInfo, logWarn, emit, remote.

Section Reactor.

Variable net : Transport.
Variable rnd : nat -> Z.

Lemma checkUserID_spec id s :
  checkUserID id s =
  (match resolved (troll s) with
   | Some r => if ipu_UserID r =? id then (r, true) else (InputPeerUser_zero, false)
   | None => (InputPeerUser_zero, false)
   end, s).
Proof.
  unfold checkUserID; go_unfold; simpl.
  destruct (resolved (troll s)) as [r|]; [|reflexivity].
  destruct (ipu_UserID r =? id); reflexivity.
Qed.

Lemma checkSticker_spec s :
  checkSticker s =
  (match sticker (troll s) with
   | Some d => (d, true)
   | None => (Document_zero, false)
   end, s).
Proof.
  unfold checkSticker; go_unfold; simpl.
  destruct (sticker (troll s)); reflexivity.
Qed.

(** What [ignored] does, step by step. *)
Lemma ignored_spec target msgID asset s :
  let file := AsInputDocumentFileLocation asset in
  let h := trace s ++ [Log InfoLevel "Answer sticker" [FInt "msg_id" msgID];
                       Remote (CallReplyDocument target msgID file)] in
  ignored net target msgID asset s =
  (ask_reply net h target msgID file, mkState (troll s) h (draws s)).
Proof.
  unfold ignored; go_unfold; simpl.
  rewrite <- app_assoc; reflexivity.
Qed.

(** What [revoke] does, step by step. *)
Lemma revoke_spec target msgID s :
  let h1 := trace s ++ [Log InfoLevel "Delete message" [FInt "msg_id" msgID];
                        Remote (CallForwardIDs target msgID)] in
  let h2 := h1 ++ forward_warning (ask_forward net h1 target msgID)
               ++ [Remote (CallRevokeMessages msgID)] in
  revoke net target msgID s =
  (ask_revoke net h2 msgID, mkState (troll s) h2 (draws s)).
Proof.
  unfold revoke; go_unfold; simpl.
  rewrite <- (app_assoc (trace s)); simpl.
  destruct (ask_forward net _ target msgID) as [e|]; simpl.
  - rewrite <- !app_assoc; reflexivity.
  - reflexivity.
Qed.

Lemma OnNewMessage_admitted update msg target s :
  admitted (troll s) update msg target ->
  OnNewMessage net rnd update s =
  perform net target (msg_ID msg) (decision (sticker (troll s)) (drawn_bit rnd s))
          (at_dispatch msg s).
Proof.
  intros (Hm & Hout & Hpeer & Hres).
  unfold OnNewMessage. rewrite Hm, Hout, Hpeer.
  unfold bind at 1. rewrite checkUserID_spec, Hres, Z.eqb_refl.
  cbn [negb]. cbv beta iota.
  unfold bind at 1, logInfo at 1, emit at 1. cbv beta iota.
  unfold bind at 1. rewrite checkSticker_spec. cbn [troll].
  unfold at_dispatch, decision, drawn_bit, got_message.
  destruct (sticker (troll s)) as [d|].
  - unfold bind at 1. unfold bind at 1. unfold randInt, ret. cbn [troll trace draws].
    destruct (Z.rem (rnd (draws s) mod 2 ^ 63) 2 =? 0); reflexivity.
  - unfold bind at 1, ret at 1. reflexivity.
Qed.

Lemma OnNewMessage_rejected update s :
  (forall msg target, ~ admitted (troll s) update msg target) ->
  OnNewMessage net rnd update s = (None, s).
Proof.
  intros Hno. unfold OnNewMessage.
  destruct (upd_Message update) as [id|msg|id out peer] eqn:Hm; try reflexivity.
  destruct (msg_Out msg) eqn:Hout; [reflexivity|].
  destruct (msg_PeerID msg) as [uid|cid|cid] eqn:Hpeer; try reflexivity.
  unfold bind at 1. rewrite checkUserID_spec.
  destruct (resolved (troll s)) as [r|] eqn:Hres; [|reflexivity].
  destruct (ipu_UserID r =? uid) eqn:Hid; [|reflexivity].
  apply Z.eqb_eq in Hid. exfalso. apply (Hno msg r).
  unfold admitted. subst uid. auto.
Qed.

Lemma appended_app s s' ev :
  trace s' = trace s ++ ev -> appended s s' = ev.
Proof.
  intros H. unfold appended. rewrite H.
  rewrite skipn_app, skipn_all, Nat.sub_diag. reflexivity.
Qed.

Lemma perform_trace target msgID a s :
  exists ev,
    trace (snd (perform net target msgID a s)) = trace s ++ ev /\
    calls_of ev = action_calls target msgID a /\
    troll (snd (perform net target msgID a s)) = troll s /\
    draws (snd (perform net target msgID a s)) = draws s.
Proof.
  destruct a as [asset|]; simpl perform.
  - rewrite ignored_spec. simpl. eexists. repeat split.
  - rewrite revoke_spec. simpl. rewrite <- app_assoc. simpl.
    eexists. split; [reflexivity|].
    destruct (ask_forward net _ target msgID); simpl; repeat split.
Qed.

Lemma admitted_or_not t update :
  (exists msg target, admitted t update msg target) \/
  (forall msg target, ~ admitted t update msg target).
Proof.
  unfold admitted.
  destruct (upd_Message update) as [id|msg|id out peer];
    try (right; intros m tg (H & _); discriminate).
  destruct (msg_Out msg) eqn:Hout;
    [right; intros m tg (H & H1 & _); injection H as <-; congruence|].
  destruct (msg_PeerID msg) as [uid|cid|cid] eqn:Hpeer;
    try (right; intros m tg (H & _ & H2 & _); injection H as <-; congruence).
  destruct (resolved t) as [r|];
    [|right; intros m tg (_ & _ & _ & H3); discriminate].
  destruct (Z.eq_dec (ipu_UserID r) uid) as [<-|Hne].
  - left. exists msg, r. auto.
  - right. intros m tg (H & _ & H2 & H3). injection H as <-.
    injection H3 as <-. congruence.
Qed.

Lemma OnNewMessage_admitted_trace update msg target s :
  admitted (troll s) update msg target ->
  exists ev,
    trace (snd (OnNewMessage net rnd update s)) = trace s ++ got_message msg :: ev /\
    calls_of ev =
      action_calls target (msg_ID msg) (decision (sticker (troll s)) (drawn_bit rnd s)) /\
    troll (snd (OnNewMessage net rnd update s)) = troll s.
Proof.
  intros Hadm. rewrite (OnNewMessage_admitted _ _ _ _ Hadm).
  destruct (perform_trace target (msg_ID msg)
              (decision (sticker (troll s)) (drawn_bit rnd s)) (at_dispatch msg s))
    as (ev & Htr & Hcalls & Htroll & _).
  exists ev. rewrite Htr, Htroll. simpl. rewrite <- app_assoc. auto.
Qed.

Lemma drawn_bit_range s : drawn_bit rnd s = 0 \/ drawn_bit rnd s = 1.
Proof.
  unfold drawn_bit.
  assert (H : 0 <= rnd (draws s) mod 2 ^ 63) by (apply Z.mod_pos_bound; lia).
  pose proof (Z.rem_bound_pos _ 2 H ltac:(lia)). lia.
Qed.

(** C1: an inbound event reaches the log-and-dispatch step of
    [OnNewMessage] exactly when it passes the admission filter (plain
    message, not outgoing, individual-user peer, resolved target present
    with the peer's user identifier); an event that does not pass changes
    nothing and yields the nil error. *)
Theorem OnNewMessage_admission update s :
  let out := OnNewMessage net rnd update s in
  ((exists msg target, admitted (troll s) update msg target) <->
   (exists msg rest,
      upd_Message update = MessagePtr msg /\
      trace (snd out) = trace s ++ got_message msg :: rest)) /\
  ((forall msg target, ~ admitted (troll s) update msg target) ->
   out = (None, s)).
Proof.
  cbv zeta. split.
  - split.
    + intros (msg & target & Hadm).
      destruct (OnNewMessage_admitted_trace _ _ _ _ Hadm) as (ev & Htr & _).
      exists msg, ev. split; [apply Hadm | exact Htr].
    + intros (msg & rest & _ & Htr).
      destruct (admitted_or_not (troll s) update) as [Hyes|Hno]; [exact Hyes|].
      rewrite (OnNewMessage_rejected _ _ Hno) in Htr. simpl in Htr.
      apply (f_equal (@List.length Event)) in Htr.
      rewrite length_app in Htr. simpl in Htr. lia.
  - apply OnNewMessage_rejected.
Qed.

(** C2: for an admitted event the asset reply is dispatched when an asset
    is cached and the drawn bit is 0, and the revoke action otherwise;
    without a cached asset the calls are those of the revoke action,
    whatever the draw, and none of them is a reply. *)
Theorem OnNewMessage_dispatch update msg target s :
  admitted (troll s) update msg target ->
  let out := OnNewMessage net rnd update s in
  let bit := drawn_bit rnd s in
  let chosen := decision (sticker (troll s)) bit in
  (bit = 0 \/ bit = 1) /\
  out = perform net target (msg_ID msg) chosen (at_dispatch msg s) /\
  calls_of (appended s (snd out)) = action_calls target (msg_ID msg) chosen /\
  (sticker (troll s) = None ->
   calls_of (appended s (snd out)) =
     [CallForwardIDs target (msg_ID msg); CallRevokeMessages (msg_ID msg)] /\
   existsb is_reply (calls_of (appended s (snd out))) = false).
Proof.
  intros Hadm. cbv zeta.
  destruct (OnNewMessage_admitted_trace _ _ _ _ Hadm) as (ev & Htr & Hcalls & _).
  assert (Happ : calls_of (appended s (snd (OnNewMessage net rnd update s))) =
                 action_calls target (msg_ID msg)
                   (decision (sticker (troll s)) (drawn_bit rnd s))).
  { rewrite (appended_app _ _ _ Htr). simpl. exact Hcalls. }
  split; [apply drawn_bit_range|].
  split; [apply OnNewMessage_admitted; exact Hadm|].
  split; [exact Happ|].
  intros Hnone. rewrite Happ, Hnone. simpl. auto.
Qed.

(** C4: [revoke] always attempts the delete after the forward; a forward
    failure only adds a warning to the log, and the error returned, also
    by [OnNewMessage] when it dispatches the revoke action, is the answer
    of the delete call. *)
Theorem revoke_returns_delete_error target msgID s :
  let h1 := trace s ++ [Log InfoLevel "Delete message" [FInt "msg_id" msgID];
                        Remote (CallForwardIDs target msgID)] in
  let fwd := ask_forward net h1 target msgID in
  let h2 := h1 ++ forward_warning fwd ++ [Remote (CallRevokeMessages msgID)] in
  revoke net target msgID s = (ask_revoke net h2 msgID, mkState (troll s) h2 (draws s)) /\
  (forall e, fwd = Some e -> In (Log WarnLevel "Forward failed" [FError e]) h2) /\
  (forall update msg,
      admitted (troll s) update msg target ->
      msg_ID msg = msgID ->
      decision (sticker (troll s)) (drawn_bit rnd s) = Revoke ->
      OnNewMessage net rnd update s = revoke net target msgID (at_dispatch msg s)).
Proof.
  cbv zeta. split; [apply revoke_spec|]. split.
  - intros e He. rewrite He. simpl.
    apply in_or_app. right. left. reflexivity.
  - intros update msg Hadm Hid Hdec.
    rewrite (OnNewMessage_admitted _ _ _ _ Hadm), Hdec, Hid. reflexivity.
Qed.

Lemma perform_relimit lim target msgID a s :
  perform net target msgID a (relimit lim s) =
  (fst (perform net target msgID a s), relimit lim (snd (perform net target msgID a s))).
Proof.
  destruct a as [asset|]; simpl perform.
  - rewrite !ignored_spec. reflexivity.
  - rewrite !revoke_spec. reflexivity.
Qed.

Lemma OnNewMessage_relimit lim update s :
  OnNewMessage net rnd update (relimit lim s) =
  (fst (OnNewMessage net rnd update s), relimit lim (snd (OnNewMessage net rnd update s))).
Proof.
  destruct (admitted_or_not (troll s) update) as [(msg & target & Hadm)|Hno].
  - assert (Hadm' : admitted (troll (relimit lim s)) update msg target) by exact Hadm.
    rewrite (OnNewMessage_admitted _ _ _ _ Hadm), (OnNewMessage_admitted _ _ _ _ Hadm').
    replace (at_dispatch msg (relimit lim s)) with (relimit lim (at_dispatch msg s))
      by reflexivity.
    apply perform_relimit.
  - assert (Hno' : forall msg target, ~ admitted (troll (relimit lim s)) update msg target)
      by exact Hno.
    rewrite (OnNewMessage_rejected _ _ Hno), (OnNewMessage_rejected _ _ Hno').
    reflexivity.
Qed.

Lemma OnNewMessage_keeps_troll update s :
  troll (snd (OnNewMessage net rnd update s)) = troll s.
Proof.
  destruct (admitted_or_not (troll s) update) as [(msg & target & Hadm)|Hno].
  - destruct (OnNewMessage_admitted_trace _ _ _ _ Hadm) as (_ & _ & _ & H). exact H.
  - rewrite (OnNewMessage_rejected _ _ Hno). reflexivity.
Qed.

Lemma admitted_dispatches update msg target s :
  admitted (troll s) update msg target ->
  calls_of (appended s (snd (OnNewMessage net rnd update s))) <> [].
Proof.
  intros Hadm.
  destruct (OnNewMessage_admitted_trace _ _ _ _ Hadm) as (ev & Htr & Hcalls & _).
  rewrite (appended_app _ _ _ Htr). simpl. rewrite Hcalls.
  destruct (decision _ _); discriminate.
Qed.

(** C7: the rate limiter configured by [NewTroll] is never consulted by
    [OnNewMessage]: with any other limiter state the returned error, the
    trace and the draws are the same and the limiter is left as it was;
    two admitted events dated less than 15 seconds apart, handled one after
    the other, both lead to remote calls. *)
Theorem limiter_never_consulted update s lim :
  let out := OnNewMessage net rnd update s in
  let out' := OnNewMessage net rnd update (relimit lim s) in
  fst out' = fst out /\
  snd out' = relimit lim (snd out) /\
  limiter (troll (snd out)) = limiter (troll s) /\
  (forall later m1 m2 target,
      admitted (troll s) update m1 target ->
      admitted (troll s) later m2 target ->
      Z.abs (msg_Date m2 - msg_Date m1) < 15 ->
      let s1 := snd out in
      let s2 := snd (OnNewMessage net rnd later s1) in
      calls_of (appended s s1) <> [] /\ calls_of (appended s1 s2) <> []).
Proof.
  cbv zeta. rewrite OnNewMessage_relimit. simpl fst. simpl snd.
  split; [reflexivity|]. split; [reflexivity|].
  split; [rewrite OnNewMessage_keeps_troll; reflexivity|].
  intros later m1 m2 target H1 H2 _. split.
  - apply (admitted_dispatches _ _ _ _ H1).
  - apply (admitted_dispatches later m2 target).
    rewrite OnNewMessage_keeps_troll. exact H2.
Qed.

End Reactor.

Section Setup.

Variable net : Transport.

Lemma getUser_spec s :
  let dom := domain (troll s) in
  let h := trace s ++ [Remote (CallResolveUser dom)] in
  getUser net s =
  match resolution net s with
  | inl err => (Some (Wrapf "resolve %q: %w" err), mkState (troll s) h (draws s))
  | inr (InputPeerUserPtr userPeer) =>
      (None, mkState (set_resolved (troll s) (Some userPeer))
                     (h ++ [Log InfoLevel "Got user" [FString "user" dom]]) (draws s))
  | inr _ => (Some (Errorf "unexpected type %T"), mkState (troll s) h (draws s))
  end.
Proof.
  unfold getUser, resolution; go_unfold; cbn [troll trace draws].
  destruct (ask_resolve net _ _) as [err|[| |c|u|c a]]; reflexivity.
Qed.

Lemma nth_error_last_index {A} (front : list A) (x : A) :
  nth_error (front ++ [x]) (List.length (front ++ [x]) - 1)%nat = Some x.
Proof.
  rewrite length_app. simpl.
  replace (List.length front + 1 - 1)%nat with (List.length front) by lia.
  rewrite nth_error_app2 by lia. rewrite Nat.sub_diag. reflexivity.
Qed.

Lemma getSticker_spec s :
  let name := stickerSet (troll s) in
  let h := trace s ++ [Remote (CallGetStickerSet name)] in
  getSticker net s =
  match acquisition (fetched net s) with
  | inl why => (Some (acquisition_error why), mkState (troll s) h (draws s))
  | inr d =>
      (None, mkState (set_sticker (troll s) (Some d))
                     (h ++ [Log InfoLevel "Got sticker set" [FString "stickerset" name]])
                     (draws s))
  end.
Proof.
  unfold getSticker, fetched, acquisition; go_unfold; cbn [troll trace draws].
  destruct (ask_sticker_set net _ _) as [err|set]; [reflexivity|].
  destruct (set_Documents set) as [|d0 ds] using rev_ind; [reflexivity|].
  rewrite rev_unit, nth_error_last_index.
  replace (Z.of_nat (List.length (ds ++ [d0])) <? 1) with false
    by (symmetry; apply Z.ltb_ge; rewrite length_app; simpl; lia).
  destruct d0 as [id|d]; reflexivity.
Qed.

Lemma setup_spec s :
  setup net s =
  match fst (getUser net s) with
  | Some e => (Some (Wrapf "get user: %w" e), snd (getUser net s))
  | None =>
      let s1 := snd (getUser net s) in
      let s2 := snd (getSticker net s1) in
      (None,
       match fst (getSticker net s1) with
       | Some e => mkState (troll s2)
                           (trace s2 ++ [Log WarnLevel "Get sticker failed" [FError e]])
                           (draws s2)
       | None => s2
       end)
  end.
Proof.
  unfold setup. unfold bind at 1.
  destruct (getUser net s) as [[e|] s1]; [reflexivity|].
  cbn [fst snd]. unfold bind at 1.
  destruct (getSticker net s1) as [[e|] s2]; reflexivity.
Qed.

Lemma getUser_fails_iff s :
  fst (getUser net s) <> None <-> resolution_fails net s.
Proof.
  rewrite getUser_spec. unfold resolution_fails.
  destruct (resolution net s) as [err|[| |c|u|c a]]; cbn [fst];
    split; intros H; try discriminate; try congruence.
  exfalso. apply (H u). reflexivity.
Qed.

Lemma getUser_ok_state s :
  fst (getUser net s) = None ->
  exists u,
    resolution net s = inr (InputPeerUserPtr u) /\
    troll (snd (getUser net s)) = set_resolved (troll s) (Some u).
Proof.
  rewrite getUser_spec.
  destruct (resolution net s) as [err|[| |c|u|c a]]; cbn [fst snd troll];
    intros H; try discriminate.
  exists u. auto.
Qed.

Lemma getSticker_no_panic s what :
  fst (getSticker net s) <> Some (Panic what).
Proof.
  rewrite getSticker_spec.
  destruct (acquisition (fetched net s)) as [[| |]|d]; cbn [fst acquisition_error];
    discriminate.
Qed.

(** C3: [setup] returns an error exactly when identity resolution (the
    [getUser] step) fails; when resolution succeeds and asset acquisition
    fails (fetch error, empty collection or malformed last item), [setup]
    returns nil, its last act is the warning carrying that failure, and the
    cached asset is what it was, so absent if it was absent. *)
Theorem setup_fatal_only_on_resolution s :
  let out := setup net s in
  let s1 := snd (getUser net s) in
  (fst out <> None <-> resolution_fails net s) /\
  (fst (getUser net s) <> None <-> resolution_fails net s) /\
  (forall why,
      ~ resolution_fails net s ->
      acquisition (fetched net s1) = inl why ->
      fst out = None /\
      trace (snd out) =
        trace s1 ++ [Remote (CallGetStickerSet (stickerSet (troll s)));
                     Log WarnLevel "Get sticker failed" [FError (acquisition_error why)]] /\
      sticker (troll (snd out)) = sticker (troll s) /\
      (sticker (troll s) = None -> sticker (troll (snd out)) = None)).
Proof.
  cbv zeta. split; [|split].
  - rewrite <- getUser_fails_iff, setup_spec.
    destruct (fst (getUser net s)); cbn [fst]; split; congruence.
  - apply getUser_fails_iff.
  - intros why Hres Hacq.
    assert (Hok : fst (getUser net s) = None).
    { destruct (fst (getUser net s)) eqn:E; [|reflexivity].
      exfalso. apply Hres, getUser_fails_iff. congruence. }
    destruct (getUser_ok_state _ Hok) as (u & _ & Htroll).
    rewrite setup_spec, Hok. cbv zeta. cbn [fst snd].
    rewrite getSticker_spec, Hacq. cbn [fst snd troll trace draws].
    rewrite Htroll. cbn [stickerSet sticker set_resolved].
    rewrite <- app_assoc. auto.
Qed.

(** C6: when the fetch succeeds and the collection ends with a well-formed
    item, [getSticker], and so [setup], caches exactly that item, the one
    at index length-1; for a collection of three items it is the item at
    index 2. *)
Theorem setup_caches_last_item s set front d :
  set_Documents set = front ++ [DocumentPtr d] ->
  let docs := set_Documents set in
  nth_error docs (List.length docs - 1)%nat = Some (DocumentPtr d) /\
  (List.length docs = 3%nat -> nth_error docs 2%nat = Some (DocumentPtr d)) /\
  (fetched net s = inr set ->
   fst (getSticker net s) = None /\
   sticker (troll (snd (getSticker net s))) = Some d) /\
  (~ resolution_fails net s ->
   fetched net (snd (getUser net s)) = inr set ->
   fst (setup net s) = None /\
   sticker (troll (snd (setup net s))) = Some d).
Proof.
  intros Hdocs. cbv zeta.
  assert (Hlast : nth_error (set_Documents set) (List.length (set_Documents set) - 1)%nat
                  = Some (DocumentPtr d)).
  { rewrite Hdocs. apply nth_error_last_index. }
  assert (Hget : forall s0, fetched net s0 = inr set ->
                            getSticker net s0 =
                            (None, mkState (set_sticker (troll s0) (Some d))
                                     ((trace s0 ++ [Remote (CallGetStickerSet (stickerSet (troll s0)))])
                                      ++ [Log InfoLevel "Got sticker set"
                                            [FString "stickerset" (stickerSet (troll s0))]])
                                     (draws s0))).
  { intros s0 Hfetch. rewrite getSticker_spec. unfold acquisition.
    rewrite Hfetch, Hdocs, rev_unit. reflexivity. }
  split; [exact Hlast|]. split; [|split].
  - intros H3. rewrite H3 in Hlast. exact Hlast.
  - intros Hfetch. rewrite (Hget s Hfetch). auto.
  - intros Hres Hfetch.
    assert (Hok : fst (getUser net s) = None).
    { destruct (fst (getUser net s)) eqn:E; [|reflexivity].
      exfalso. apply Hres, getUser_fails_iff. congruence. }
    rewrite setup_spec, Hok. cbv zeta. cbn [fst snd].
    rewrite (Hget _ Hfetch). auto.
Qed.

(** C10: a failing setup sub-step leaves the store alone: when [getUser]
    returns an error the resolved target is unchanged, and when
    [getSticker] returns an error (fetch failure, empty collection or
    malformed last item) the cached asset is unchanged. *)
Theorem failed_step_keeps_store s :
  (forall e, fst (getUser net s) = Some e ->
             resolved (troll (snd (getUser net s))) = resolved (troll s) /\
             troll (snd (getUser net s)) = troll s) /\
  (forall e, fst (getSticker net s) = Some e ->
             sticker (troll (snd (getSticker net s))) = sticker (troll s) /\
             troll (snd (getSticker net s)) = troll s) /\
  (forall e, fst (getSticker net s) = Some e <->
             exists why, acquisition (fetched net s) = inl why /\ e = acquisition_error why).
Proof.
  split; [|split].
  - intros e. rewrite getUser_spec.
    destruct (resolution net s) as [err|[| |c|u|c a]]; cbn [fst snd troll];
      intros H; try discriminate; auto.
  - intros e. rewrite getSticker_spec.
    destruct (acquisition (fetched net s)) as [why|d]; cbn [fst snd troll];
      intros H; try discriminate; auto.
  - intros e. rewrite getSticker_spec.
    destruct (acquisition (fetched net s)) as [why|d]; cbn [fst snd]; split.
    + intros H. injection H as <-. exists why. auto.
    + intros (why' & H & ->). injection H as <-. reflexivity.
    + discriminate.
    + intros (why' & H & _). discriminate.
Qed.

End Setup.

Section StatusLoop.

Variable net : Transport.

Lemma statusLoop_tick_spec s :
  let h := trace s ++ [Remote (CallUpdateStatus false)] in
  statusLoop_tick net s =
  (tt, mkState (troll s) (h ++ status_warning (ask_update_status net h false)) (draws s)).
Proof.
  unfold statusLoop_tick; go_unfold; cbn [troll trace draws].
  destruct (ask_update_status net _ false); cbn [status_warning troll trace draws].
  - reflexivity.
  - rewrite app_nil_r. reflexivity.
Qed.

Lemma failures_logged_tick base rest :
  let call := Remote (CallUpdateStatus false) in
  let warn := status_warning (ask_update_status net (base ++ [call]) false) in
  failures_logged net ((base ++ [call]) ++ warn) rest ->
  failures_logged net base (call :: warn ++ rest).
Proof.
  cbv zeta. intros IH pre post e Hev Hans.
  destruct pre as [|x pre].
  - simpl in Hev. injection Hev as <-. simpl in Hans. rewrite Hans. simpl. eauto.
  - simpl in Hev. injection Hev as <- Hev.
    destruct (ask_update_status net (base ++ [Remote (CallUpdateStatus false)]) false)
      as [e0|]; simpl in Hev, IH.
    + destruct pre as [|y pre]; simpl in Hev; [discriminate|].
      injection Hev as <- Hev.
      apply (IH pre post e Hev).
      rewrite <- Hans. f_equal. rewrite <- !app_assoc. reflexivity.
    + apply (IH pre post e Hev).
      rewrite <- Hans. f_equal. rewrite <- !app_assoc. reflexivity.
Qed.

Lemma statusLoop_for_spec arms : forall s,
  fst (statusLoop_for net arms s) = loop_outcome arms /\
  troll (snd (statusLoop_for net arms s)) = troll s /\
  exists ev,
    trace (snd (statusLoop_for net arms s)) = trace s ++ ev /\
    calls_of ev = repeat (CallUpdateStatus false) (ticks_before_done arms) /\
    failures_logged net (trace s) ev.
Proof.
  unfold loop_outcome.
  induction arms as [|[err|] rest IH]; intros s.
  - simpl. repeat split. exists []. rewrite app_nil_r. repeat split.
    intros [|x pre] post e H; discriminate.
  - simpl. repeat split. exists []. rewrite app_nil_r. repeat split.
    intros [|x pre] post e H; discriminate.
  - cbn [statusLoop_for first_done ticks_before_done].
    unfold bind at 1 2 3. rewrite statusLoop_tick_spec.
    set (call := Remote (CallUpdateStatus false)).
    set (warn := status_warning (ask_update_status net (trace s ++ [call]) false)).
    set (s1 := mkState (troll s) ((trace s ++ [call]) ++ warn) (draws s)).
    destruct (IH s1) as (Hout & Htroll & ev & Htr & Hcalls & Hlog).
    split; [exact Hout|]. split; [exact Htroll|].
    exists (call :: warn ++ ev). split; [|split].
    + rewrite Htr. unfold s1. cbn [trace]. rewrite <- !app_assoc. reflexivity.
    + cbn [calls_of call repeat]. f_equal. rewrite <- Hcalls.
      unfold warn. destruct (ask_update_status net _ false); reflexivity.
    + apply failures_logged_tick. exact Hlog.
Qed.

Lemma first_done_iff arms err :
  first_done arms = Some err <->
  exists n rest, arms = repeat TickerC n ++ CtxDone err :: rest.
Proof.
  induction arms as [|[e|] rest IH]; simpl.
  - split; [discriminate|]. intros ([|n] & r & H); discriminate.
  - split.
    + intros H. injection H as ->. exists 0%nat, rest. reflexivity.
    + intros ([|n] & r & H); simpl in H; [|discriminate].
      injection H as -> _. reflexivity.
  - rewrite IH. split.
    + intros (n & r & ->). exists (S n), r. reflexivity.
    + intros ([|n] & r & H); simpl in H; [discriminate|].
      injection H as ->. eauto.
Qed.

(** C8: [statusLoop] starts a ticker of period two minutes and issues one
    presence call per tick; a call that fails is followed by a warning and
    the loop goes on to the next [select]; the loop returns only at the
    first [ctx.Done()] arm, with the error of the context, and is still
    blocked as long as no such arm was taken. *)
Theorem statusLoop_runs_until_cancelled arms s :
  let out := statusLoop net arms s in
  2 * Minute = 120 * Second /\
  fst out = loop_outcome arms /\
  (forall r, fst out = Returns r <->
             exists n err rest,
               arms = repeat TickerC n ++ CtxDone err :: rest /\ r = Some err) /\
  exists ev,
    let entered := trace s ++ [Log InfoLevel "Run update status loop" [];
                               NewTicker (2 * Minute)] in
    trace (snd out) = entered ++ ev /\
    calls_of ev = repeat (CallUpdateStatus false) (ticks_before_done arms) /\
    failures_logged net entered ev.
Proof.
  cbv zeta. unfold statusLoop, statusLoop_enter; go_unfold; cbn [troll trace draws].
  rewrite <- app_assoc. cbn [app].
  set (s1 := mkState (troll s) _ (draws s)).
  destruct (statusLoop_for_spec arms s1) as (Hout & _ & ev & Htr & Hcalls & Hlog).
  split; [reflexivity|]. split; [exact Hout|]. split.
  - intros r. rewrite Hout. unfold loop_outcome.
    destruct (first_done arms) as [e|] eqn:Hfd; split.
    + intros H. injection H as <-.
      apply first_done_iff in Hfd. destruct Hfd as (n & rest & ->). eauto.
    + intros (n & err & rest & Harms & ->).
      assert (H : first_done arms = Some err) by (apply first_done_iff; eauto).
      congruence.
    + discriminate.
    + intros (n & err & rest & Harms & ->).
      assert (H : first_done arms = Some err) by (apply first_done_iff; eauto).
      congruence.
  - exists ev. auto.
Qed.

End StatusLoop.

Section Lifecycle.

Variable net : Transport.

Lemma first_error_app exits id err :
  first_error (exits ++ [(id, err)]) =
  match first_error exits with
  | Some e => Some e
  | None => err
  end.
Proof.
  induction exits as [|[i [e|]] rest IH]; simpl; auto.
  destruct err; reflexivity.
Qed.

Lemma exit_shape_cancel reason ctx x :
  exit_shape net ctx x -> exit_shape net (cancel_with reason ctx) x.
Proof.
  unfold exit_shape. destruct (fst x); [auto|].
  intros (r & -> & H). exists r. auto.
Qed.

Lemma Run_start_inv statusLoop p : Run_inv net (Run_start statusLoop p).
Proof.
  unfold Run_inv, Run_start. cbn.
  repeat split; try discriminate; try tauto; try constructor.
  destruct id, statusLoop; discriminate.
Qed.

Lemma cancel_with_done reason ctx : cancel_with reason ctx <> None.
Proof. destruct ctx; discriminate. Qed.

Lemma cancel_with_keeps reason ctx : ctx <> None -> cancel_with reason ctx = ctx.
Proof. destruct ctx; [reflexivity|congruence]. Qed.

Lemma group_exit_fields id err s :
  let s' := group_exit id err s in
  rc_prog s' = rc_prog s /\ rc_parent s' = rc_parent s /\
  rc_setup s' = rc_setup s /\ rc_status s' = rc_status s /\
  rc_main s' = rc_main s /\
  rc_exits s' = rc_exits s ++ [(id, err)] /\
  rc_gerr s' = match rc_gerr s with Some e => Some e | None => err end /\
  rc_ctx s' = match err, rc_gerr s with
              | Some _, None => cancel_with Canceled (rc_ctx s)
              | _, _ => rc_ctx s
              end.
Proof.
  unfold group_exit. destruct err, (rc_gerr s); cbn; repeat split.
Qed.

Ltac rc_simpl :=
  cbn [rc_prog rc_parent rc_ctx rc_gerr rc_setup rc_status rc_main rc_exits
       with_prog with_setup with_status with_main] in *.

Ltac ts_simpl :=
  cbn [task_state rc_prog rc_parent rc_ctx rc_gerr rc_setup rc_status rc_main rc_exits
       with_prog with_setup with_status with_main].

Ltac inv_split :=
  unfold Run_inv; refine (conj _ (conj _ (conj _ (conj _ (conj _ (conj _ _)))))).

Lemma in_exits_app (exits : list (TaskId * option error)) id err id' err' :
  In (id, err) (exits ++ [(id', err')]) <->
  In (id, err) exits \/ (id' = id /\ err' = err).
Proof.
  rewrite in_app_iff. simpl. split.
  - intros [H|[H|[]]]; [left; exact H|right; injection H; auto].
  - intros [H|[-> ->]]; auto.
Qed.

(** Leaving the group keeps the invariant, for a goroutine that was not
    counted as done and hands over an error of the expected shape. *)
Lemma group_exit_inv id err s0 :
  rc_gerr s0 = first_error (rc_exits s0) ->
  (rc_ctx s0 <> None <-> rc_parent s0 <> None \/ rc_gerr s0 <> None) ->
  (rc_main s0 <> AtCtxDone -> rc_ctx s0 <> None) ->
  (forall r, rc_main s0 <> RunReturned r) ->
  (forall i e, In (i, e) (rc_exits s0) <-> i <> id /\ task_state s0 i = Some (Finished e)) ->
  task_state s0 id = Some (Finished err) ->
  Forall (exit_shape net (rc_ctx s0)) (rc_exits s0) ->
  exit_shape net (rc_ctx s0) (id, err) ->
  rc_setup s0 <> Looping ->
  Run_inv net (group_exit id err s0).
Proof.
  intros Hg Hc Hm Hr Hx Hid Hs Hnew Hl.
  destruct (group_exit_fields id err s0) as (_ & E2 & E3 & E4 & E5 & E6 & E7 & E8).
  cbv zeta in *.
  assert (Hmono : forall x, exit_shape net (rc_ctx s0) x ->
                            exit_shape net (rc_ctx (group_exit id err s0)) x).
  { intros x Hx0. rewrite E8. destruct err, (rc_gerr s0); auto.
    apply exit_shape_cancel. exact Hx0. }
  inv_split.
  - rewrite E7, E6, first_error_app, <- Hg. reflexivity.
  - rewrite E8, E7, E2. destruct err as [e|], (rc_gerr s0) as [g|]; try exact Hc.
    split; [intros _; right; discriminate | intros _; apply cancel_with_done].
  - rewrite E5, E8. intros H. specialize (Hm H).
    destruct err, (rc_gerr s0); auto. apply cancel_with_done.
  - rewrite E5. intros r H. destruct (Hr r H).
  - intros i e. rewrite E6, in_exits_app, Hx.
    assert (Hst : task_state (group_exit id err s0) i = task_state s0 i).
    { destruct i; cbn [task_state]; congruence. }
    rewrite Hst. split.
    + intros [[_ H]|[<- <-]]; assumption.
    + intros H. destruct id, i; try (left; split; [discriminate|exact H]);
        right; split; congruence.
  - rewrite E6. apply Forall_app. split.
    + eapply Forall_impl; [exact Hmono|exact Hs].
    + constructor; [apply Hmono; exact Hnew|constructor].
  - rewrite E3. exact Hl.
Qed.

Lemma Some_eq {A} (a b : A) : Some a = Some b -> a = b.
Proof. congruence. Qed.

Lemma Run_step_inv st s s' :
  Run_inv net s -> Run_step net st s = Some s' -> Run_inv net s'.
Proof.
  intros (Hg & Hc & Hm & Hr & Hx & Hs & Hl) Hstep.
  destruct st; cbv beta iota zeta delta [Run_step] in Hstep.
  - (* ExternalCancel *)
    destruct (rc_parent s) eqn:Hpar; [discriminate|]. apply Some_eq in Hstep; subst s'.
    inv_split; rc_simpl; auto.
    + split; [intros _; left; discriminate | intros _; apply cancel_with_done].
    + intros _. apply cancel_with_done.
    + eapply Forall_impl; [|exact Hs]. intros x. apply exit_shape_cancel.
  - (* SetupRuns *)
    destruct (rc_setup s) eqn:Hsu; try discriminate. apply Some_eq in Hstep; subst s'.
    apply group_exit_inv; rc_simpl; auto.
    + intros r H. destruct (Hr r H) as (_ & H1 & _). discriminate.
    + intros i e. rewrite Hx. destruct i; ts_simpl.
      * rewrite ?Hsu. split; [discriminate|]. intros [H _]. congruence.
      * split; [intros H; split; [discriminate|exact H] | intros [_ H]; exact H].
    + exists (rc_prog s). reflexivity.
    + discriminate.
  - (* StatusEnters *)
    destruct (rc_status s) as [[| |]|] eqn:Hst; try discriminate. apply Some_eq in Hstep; subst s'.
    inv_split; rc_simpl; auto.
    intros i e. rewrite Hx. destruct i; ts_simpl; [tauto|]. rewrite ?Hst.
    split; discriminate.
  - (* StatusTicks *)
    destruct (rc_status s) as [[| |]|] eqn:Hst; try discriminate. apply Some_eq in Hstep; subst s'.
    inv_split; rc_simpl; auto.
    rewrite Hst. exact Hr.
  - (* StatusSeesDone *)
    destruct (rc_status s) as [[| |]|] eqn:Hst; try discriminate.
    destruct (rc_ctx s) as [reason|] eqn:Hctx; try discriminate.
    apply Some_eq in Hstep; subst s'.
    apply group_exit_inv; rc_simpl; auto.
    + rewrite ?Hctx. exact Hc.
    + rewrite ?Hctx. exact Hm.
    + intros r H. destruct (Hr r H) as (_ & _ & H1). discriminate.
    + intros i e. rewrite Hx. destruct i; ts_simpl.
      * split; [intros H; split; [discriminate|exact H] | intros [_ H]; exact H].
      * rewrite ?Hst. split; [discriminate|]. intros [H _]. congruence.
    + rewrite ?Hctx. exact Hs.
    + exists reason. rewrite ?Hctx. auto.
  - (* MainSeesDone *)
    destruct (rc_main s) eqn:Hmn; try discriminate.
    destruct (rc_ctx s) as [reason|] eqn:Hctx; try discriminate. apply Some_eq in Hstep; subst s'.
    inv_split; rc_simpl; auto.
    + rewrite ?Hctx. exact Hc.
    + rewrite ?Hctx. discriminate.
    + discriminate.
    + rewrite ?Hctx. exact Hs.
  - (* MainWaitReturns *)
    destruct (rc_main s) eqn:Hmn; try discriminate.
    destruct (task_done (Some (rc_setup s)) && task_done (rc_status s)) eqn:Hdone;
      try discriminate.
    apply Some_eq in Hstep; subst s'. apply andb_true_iff in Hdone.
    inv_split; rc_simpl; auto.
    + intros _. apply Hm. discriminate.
    + intros r H. injection H as <-. tauto.
Qed.

Lemma Run_steps_inv sched : forall s s',
  Run_inv net s -> Run_steps net sched s = Some s' -> Run_inv net s'.
Proof.
  induction sched as [|st rest IH]; intros s s' Hinv Hrun; simpl in Hrun.
  - injection Hrun as <-. exact Hinv.
  - destruct (Run_step net st s) as [s1|] eqn:Hstep; [|discriminate].
    apply (IH s1 s'); [|exact Hrun]. apply (Run_step_inv st s); assumption.
Qed.

Ltac run_compute :=
  cbv beta iota zeta
      delta [Run_steps Run_step drain app group_exit with_prog with_setup with_status
             with_main wrap_nonnil cancel_with task_done andb
             rc_prog rc_parent rc_ctx rc_gerr rc_setup rc_status rc_main rc_exits].

(** Once the derived context is done, the steps of [drain] can all be taken
    and end with [Run] returned. *)
Lemma drain_returns s :
  rc_setup s <> Looping ->
  rc_ctx s <> None ->
  exists s' r, Run_steps net (drain s) s = Some s' /\ rc_main s' = RunReturned r.
Proof.
  destruct s as [p par [reason|] gerr su stt mn ex]; cbn [rc_setup rc_ctx];
    intros Hl Hctx; [|congruence].
  destruct su; [| congruence |];
    destruct stt as [[| |e]|], mn, gerr;
    run_compute;
    try destruct (fst (setup net p));
    run_compute; eauto.
Qed.

Lemma Run_step_status_none st s s' :
  Run_step net st s = Some s' -> (rc_status s' = None <-> rc_status s = None).
Proof.
  intros Hstep. destruct st; cbv beta iota zeta delta [Run_step] in Hstep.
  - destruct (rc_parent s); [discriminate|]. apply Some_eq in Hstep; subst s'.
    reflexivity.
  - destruct (rc_setup s); try discriminate. apply Some_eq in Hstep; subst s'.
    destruct (group_exit_fields SetupTask
                (wrap_nonnil "setup: %w" (fst (setup net (rc_prog s))))
                (with_setup (with_prog s (snd (setup net (rc_prog s))))
                   (Finished (wrap_nonnil "setup: %w" (fst (setup net (rc_prog s)))))))
      as (_ & _ & _ & E & _).
    rewrite E. reflexivity.
  - destruct (rc_status s) as [[| |]|]; try discriminate.
    apply Some_eq in Hstep; subst s'. split; discriminate.
  - destruct (rc_status s) as [[| |]|] eqn:E; try discriminate.
    apply Some_eq in Hstep; subst s'. cbn. rewrite E. reflexivity.
  - destruct (rc_status s) as [[| |]|]; try discriminate.
    destruct (rc_ctx s); try discriminate.
    apply Some_eq in Hstep; subst s'.
    match goal with
    | |- rc_status (group_exit ?i ?e ?s0) = None <-> _ =>
        destruct (group_exit_fields i e s0) as (_ & _ & _ & E & _); rewrite E
    end.
    split; discriminate.
  - destruct (rc_main s); try discriminate. destruct (rc_ctx s); try discriminate.
    apply Some_eq in Hstep; subst s'. reflexivity.
  - destruct (rc_main s); try discriminate.
    destruct (task_done (Some (rc_setup s)) && task_done (rc_status s));
      try discriminate.
    apply Some_eq in Hstep; subst s'. reflexivity.
Qed.

Lemma Run_steps_status_none sched : forall s s',
  Run_steps net sched s = Some s' -> (rc_status s' = None <-> rc_status s = None).
Proof.
  induction sched as [|st rest IH]; intros s s' Hrun; simpl in Hrun.
  - apply Some_eq in Hrun; subst s'. reflexivity.
  - destruct (Run_step net st s) as [s1|] eqn:Hstep; [|discriminate].
    rewrite (IH s1 s' Hrun). apply (Run_step_status_none st). exact Hstep.
Qed.

Lemma Run_steps_app l1 l2 : forall s,
  Run_steps net (l1 ++ l2) s =
  match Run_steps net l1 s with
  | Some s1 => Run_steps net l2 s1
  | None => None
  end.
Proof.
  induction l1 as [|st rest IH]; intros s; cbn [app Run_steps]; [reflexivity|].
  destruct (Run_step net st s) as [s1|]; [apply IH|reflexivity].
Qed.

(** What one step adds to the exits of the [setup] goroutine: nothing,
    unless the step is that goroutine running, which hands over the result
    of [setup] in the program state of that moment. *)
Lemma Run_step_setup_exit st s s' :
  Run_step net st s = Some s' ->
  forall err,
    In (SetupTask, err) (rc_exits s') <->
    In (SetupTask, err) (rc_exits s) \/
    (st = SetupRuns /\ err = wrap_nonnil "setup: %w" (fst (setup net (rc_prog s)))).
Proof.
  intros Hstep err.
  destruct st; cbv beta iota zeta delta [Run_step] in Hstep.
  - destruct (rc_parent s); [discriminate|]. apply Some_eq in Hstep; subst s'.
    rc_simpl. split; [auto|]. intros [H|[H _]]; [exact H|discriminate].
  - destruct (rc_setup s); try discriminate. apply Some_eq in Hstep; subst s'.
    match goal with
    | |- In _ (rc_exits (group_exit ?i ?e ?s0)) <-> _ =>
        destruct (group_exit_fields i e s0) as (_ & _ & _ & _ & _ & E & _); rewrite E
    end.
    rc_simpl. rewrite in_exits_app. split.
    + intros [H|[_ H]]; [left; exact H|right; split; [reflexivity|symmetry; exact H]].
    + intros [H|[_ H]]; [left; exact H|right; split; [reflexivity|symmetry; exact H]].
  - destruct (rc_status s) as [[| |]|]; try discriminate.
    apply Some_eq in Hstep; subst s'.
    rc_simpl. split; [auto|]. intros [H|[H _]]; [exact H|discriminate].
  - destruct (rc_status s) as [[| |]|]; try discriminate.
    apply Some_eq in Hstep; subst s'.
    rc_simpl. split; [auto|]. intros [H|[H _]]; [exact H|discriminate].
  - destruct (rc_status s) as [[| |]|]; try discriminate.
    destruct (rc_ctx s); try discriminate. apply Some_eq in Hstep; subst s'.
    match goal with
    | |- In _ (rc_exits (group_exit ?i ?e ?s0)) <-> _ =>
        destruct (group_exit_fields i e s0) as (_ & _ & _ & _ & _ & E & _); rewrite E
    end.
    rc_simpl. rewrite in_exits_app. split.
    + intros [H|[H _]]; [left; exact H|discriminate].
    + intros [H|[H _]]; [left; exact H|discriminate].
  - destruct (rc_main s); try discriminate. destruct (rc_ctx s); try discriminate.
    apply Some_eq in Hstep; subst s'.
    rc_simpl. split; [auto|]. intros [H|[H _]]; [exact H|discriminate].
  - destruct (rc_main s); try discriminate.
    destruct (task_done (Some (rc_setup s)) && task_done (rc_status s));
      try discriminate.
    apply Some_eq in Hstep; subst s'.
    rc_simpl. split; [auto|]. intros [H|[H _]]; [exact H|discriminate].
Qed.

(** The exits of the [setup] goroutine after a schedule: those there were
    before, and the result of [setup] in the program state reached by the
    steps that precede [SetupRuns] in the schedule. *)
Lemma Run_steps_setup_exit sched : forall s0 s,
  Run_steps net sched s0 = Some s ->
  forall err,
    In (SetupTask, err) (rc_exits s) <->
    In (SetupTask, err) (rc_exits s0) \/
    exists pre post s1,
      sched = pre ++ SetupRuns :: post /\
      Run_steps net pre s0 = Some s1 /\
      err = wrap_nonnil "setup: %w" (fst (setup net (rc_prog s1))).
Proof.
  induction sched as [|st rest IH]; intros s0 s Hrun err; cbn [Run_steps] in Hrun.
  - apply Some_eq in Hrun; subst s. split; [auto|].
    intros [H|(pre & post & s1 & H & _)]; [exact H|].
    destruct pre; discriminate.
  - destruct (Run_step net st s0) as [s0'|] eqn:Hstep; [|discriminate].
    rewrite (IH _ _ Hrun err), (Run_step_setup_exit _ _ _ Hstep err). split.
    + intros [[H|[-> ->]]|(pre & post & s1 & -> & Hpre & ->)].
      * left. exact H.
      * right. exists [], rest, s0. repeat split.
      * right. exists (st :: pre), post, s1. repeat split.
        cbn [Run_steps]. rewrite Hstep. exact Hpre.
    + intros [H|(pre & post & s1 & Hsched & Hpre & ->)].
      * left. left. exact H.
      * destruct pre as [|x pre]; cbn [app] in Hsched; injection Hsched as -> ->.
        -- cbn [Run_steps] in Hpre. apply Some_eq in Hpre; subst s1.
           left. right. split; reflexivity.
        -- cbn [Run_steps] in Hpre. rewrite Hstep in Hpre.
           right. exists pre, post, s1. repeat split. exact Hpre.
Qed.

(** Once the [setup] goroutine has left, no step writes the store. *)
Lemma Run_step_after_setup st s s' e :
  rc_setup s = Finished e ->
  Run_step net st s = Some s' ->
  rc_setup s' = Finished e /\ troll (rc_prog s') = troll (rc_prog s).
Proof.
  intros Hsu Hstep.
  destruct st; cbv beta iota zeta delta [Run_step] in Hstep.
  - destruct (rc_parent s); [discriminate|]. apply Some_eq in Hstep; subst s'.
    rc_simpl. auto.
  - rewrite Hsu in Hstep. discriminate.
  - destruct (rc_status s) as [[| |]|]; try discriminate.
    apply Some_eq in Hstep; subst s'. rc_simpl. auto.
  - destruct (rc_status s) as [[| |]|]; try discriminate.
    apply Some_eq in Hstep; subst s'. rc_simpl.
    rewrite statusLoop_tick_spec. auto.
  - destruct (rc_status s) as [[| |]|]; try discriminate.
    destruct (rc_ctx s); try discriminate. apply Some_eq in Hstep; subst s'.
    match goal with
    | |- rc_setup (group_exit ?i ?x ?s0) = _ /\ _ =>
        destruct (group_exit_fields i x s0) as (E1 & _ & E3 & _); rewrite E1, E3
    end.
    rc_simpl. auto.
  - destruct (rc_main s); try discriminate. destruct (rc_ctx s); try discriminate.
    apply Some_eq in Hstep; subst s'. rc_simpl. auto.
  - destruct (rc_main s); try discriminate.
    destruct (task_done (Some (rc_setup s)) && task_done (rc_status s));
      try discriminate.
    apply Some_eq in Hstep; subst s'. rc_simpl. auto.
Qed.

Lemma Run_steps_after_setup sched : forall s s' e,
  rc_setup s = Finished e ->
  Run_steps net sched s = Some s' ->
  troll (rc_prog s') = troll (rc_prog s).
Proof.
  induction sched as [|st rest IH]; intros s s' e Hsu Hrun; cbn [Run_steps] in Hrun.
  - apply Some_eq in Hrun; subst s'. reflexivity.
  - destruct (Run_step net st s) as [s1|] eqn:Hstep; [|discriminate].
    destruct (Run_step_after_setup _ _ _ _ Hsu Hstep) as (Hsu1 & Ht).
    rewrite (IH _ _ _ Hsu1 Hrun). exact Ht.
Qed.

(** The store [Run] ends with is the one [setup] left when it ran. *)
Lemma Run_steps_store_of_setup pre post s0 s1 s :
  Run_steps net pre s0 = Some s1 ->
  Run_steps net (pre ++ SetupRuns :: post) s0 = Some s ->
  troll (rc_prog s) = troll (snd (setup net (rc_prog s1))).
Proof.
  intros Hpre Hrun. rewrite Run_steps_app, Hpre in Hrun. cbn [Run_steps] in Hrun.
  destruct (Run_step net SetupRuns s1) as [s2|] eqn:Hstep; [|discriminate].
  cbv beta iota zeta delta [Run_step] in Hstep.
  destruct (rc_setup s1); try discriminate. apply Some_eq in Hstep; subst s2.
  match type of Hrun with
  | Run_steps net post (group_exit ?i ?x ?s0) = _ =>
      destruct (group_exit_fields i x s0) as (E1 & _ & E3 & _)
  end.
  cbv zeta in *. rc_simpl.
  rewrite (Run_steps_after_setup post _ _ _ E3 Hrun), E1. reflexivity.
Qed.

(** C5 (amended): [Run] blocks until the context derived by the group is
    done, which happens exactly when the external cancellation signal has
    fired or a task has handed the group an error; it then returns only
    after every launched task ([setup], and [statusLoop] when enabled) has
    left, with the first non-nil error in the order the tasks left, nil if
    there is none; once the derived context is done the remaining steps do
    lead to the return.  The errors the tasks hand over are those of this
    run: the loop's is the wrapped reason of the done context, and
    [setup]'s is the result [setup] gave in the program state in which its
    goroutine ran, a non-nil error wrapped, the store at the end being the
    one that run of [setup] left. *)
Theorem Run_returns_first_error statusLoop sched p s :
  Run net statusLoop sched p = Some s ->
  (rc_status s = None <-> statusLoop = false) /\
  (rc_main s <> AtCtxDone -> rc_ctx s <> None) /\
  (rc_ctx s <> None <-> rc_parent s <> None \/ first_error (rc_exits s) <> None) /\
  (forall id err, In (id, err) (rc_exits s) <-> task_state s id = Some (Finished err)) /\
  Forall (exit_shape net (rc_ctx s)) (rc_exits s) /\
  (forall r, rc_main s = RunReturned r ->
             task_done (Some (rc_setup s)) = true /\
             task_done (rc_status s) = true /\
             r = first_error (rc_exits s)) /\
  (rc_ctx s <> None ->
   exists s' r, Run_steps net (drain s) s = Some s' /\ rc_main s' = RunReturned r) /\
  (forall err,
      In (SetupTask, err) (rc_exits s) <->
      exists pre post s0,
        sched = pre ++ SetupRuns :: post /\
        Run net statusLoop pre p = Some s0 /\
        err = wrap_nonnil "setup: %w" (fst (setup net (rc_prog s0)))) /\
  (forall pre post s0,
      sched = pre ++ SetupRuns :: post ->
      Run net statusLoop pre p = Some s0 ->
      troll (rc_prog s) = troll (snd (setup net (rc_prog s0)))).
Proof.
  unfold Run. intros Hrun.
  pose proof (Run_steps_inv sched _ _ (Run_start_inv statusLoop p) Hrun)
    as (Hg & Hc & Hm & Hr & Hx & Hs & Hl).
  split; [|split; [|split; [|split; [|split; [|split; [|split; [|split]]]]]]].
  - rewrite (Run_steps_status_none sched _ _ Hrun).
    destruct statusLoop; cbn; split; congruence.
  - exact Hm.
  - rewrite <- Hg. exact Hc.
  - exact Hx.
  - exact Hs.
  - intros r H. destruct (Hr r H) as (H1 & H2 & H3). rewrite <- Hg. auto.
  - apply drain_returns. exact Hl.
  - intros err. rewrite (Run_steps_setup_exit sched _ _ Hrun err).
    cbn [Run_start rc_exits In]. tauto.
  - intros pre post s0 -> Hpre.
    apply (Run_steps_store_of_setup pre post _ s0 s Hpre Hrun).
Qed.

End Lifecycle.

(** ** Scenarios *)

(** A run in which identity resolution fails and nobody cancels: [Run]
    returns the wrapped error of [setup] while the caller's context is
    still live. *)
Example Run_setup_failure :
  exists s,
    Run net_down false [SetupRuns; MainSeesDone; MainWaitReturns] fresh = Some s /\
    rc_parent s = None /\
    rc_ctx s = Some Canceled /\
    rc_main s =
      RunReturned
        (Some (Wrapf "setup: %w"
                 (Wrapf "get user: %w"
                    (Wrapf "resolve %q: %w" (RemoteErr "USERNAME_NOT_OCCUPIED"))))) /\
    option_map root_cause (first_error (rc_exits s)) =
      Some (RemoteErr "USERNAME_NOT_OCCUPIED").
Proof. eexists. repeat split. Qed.

(** Setup with target 42 and a collection of three items, then a message
    "hi" from peer 42 with the draw on the asset branch: the reply is sent
    with the third item, to the target, for the message's identifier.  A
    message from peer 43 is ignored, and so is any message before setup. *)
Example scenario_asset_reply :
  let s1 := snd (setup net_ok fresh) in
  fst (setup net_ok fresh) = None /\
  resolved (troll s1) = Some target42 /\
  sticker (troll s1) = Some doc_c /\
  calls_of (appended s1 (snd (OnNewMessage net_ok rnd_even (hi_from 42 1700000000) s1))) =
    [CallReplyDocument target42 1001 (AsInputDocumentFileLocation doc_c)] /\
  calls_of (appended s1 (snd (OnNewMessage net_ok rnd_odd (hi_from 42 1700000000) s1))) =
    [CallForwardIDs target42 1001; CallRevokeMessages 1001] /\
  OnNewMessage net_ok rnd_even (hi_from 43 1700000000) s1 = (None, s1) /\
  OnNewMessage net_ok rnd_even (hi_from 42 1700000000) fresh = (None, fresh).
Proof. cbv zeta. repeat split. Qed.

(** Setup with target 42 and an empty collection: setup succeeds with a
    warning and no asset; a later admitted message is revoked, the failing
    forward is only logged and the error of the delete is returned. *)
Example scenario_empty_collection :
  let s1 := snd (setup net_flaky fresh) in
  let out := OnNewMessage net_flaky rnd_even (hi_from 42 1700000000) s1 in
  fst (setup net_flaky fresh) = None /\
  sticker (troll s1) = None /\
  warnings_of (trace s1) = ["Get sticker failed"] /\
  calls_of (appended s1 (snd out)) =
    [CallForwardIDs target42 1001; CallRevokeMessages 1001] /\
  warnings_of (appended s1 (snd out)) = ["Forward failed"] /\
  fst out = Some (RemoteErr "MESSAGE_DELETE_FORBIDDEN").
Proof. cbv zeta. repeat split. Qed.

(** Three ticks with every presence call failing, then cancellation: three
    calls, three warnings, and the loop returns the context's error. *)
Example scenario_status_loop :
  let out := statusLoop net_flaky [TickerC; TickerC; TickerC; CtxDone Canceled] fresh in
  fst out = Returns (Some Canceled) /\
  calls_of (trace (snd out)) =
    [CallUpdateStatus false; CallUpdateStatus false; CallUpdateStatus false] /\
  warnings_of (trace (snd out)) = ["Got error"; "Got error"; "Got error"] /\
  fst (statusLoop net_flaky [TickerC; TickerC; TickerC] fresh) = Blocked.
Proof. cbv zeta. repeat split. Qed.

(** C5, as stated, fails: [Run] does not always block until the external
    cancellation signal; when [setup] fails it returns without it. *)
Lemma Run_returns_without_external_cancel : ~ Run_blocks_until_external_cancel.
Proof.
  intros H.
  specialize (H net_down false [SetupRuns; MainSeesDone; MainWaitReturns] fresh).
  vm_compute in H.
  apply (H _ _ eq_refl eq_refl). reflexivity.
Qed.

Lemma OnNewMessage_dispatch_witness :
  admitted (troll armed) (hi_from 42 1700000000) hi42 target42 /\
  calls_of (appended armed
              (snd (OnNewMessage net_ok rnd_even (hi_from 42 1700000000) armed))) =
    [CallReplyDocument target42 1001 (AsInputDocumentFileLocation doc_c)].
Proof.
  assert (Hadm : admitted (troll armed) (hi_from 42 1700000000) hi42 target42)
    by (repeat split).
  split; [exact Hadm|].
  exact (proj1 (proj2 (proj2
           (OnNewMessage_dispatch net_ok rnd_even (hi_from 42 1700000000)
                                  hi42 target42 armed Hadm)))).
Defined.

Lemma setup_caches_last_item_witness :
  set_Documents (mkMessagesStickerSet "trolls" collection3) =
    [DocumentPtr doc_a; DocumentPtr doc_b] ++ [DocumentPtr doc_c] /\
  ~ resolution_fails net_ok fresh /\
  fetched net_ok (snd (getUser net_ok fresh)) =
    inr (mkMessagesStickerSet "trolls" collection3) /\
  sticker (troll (snd (setup net_ok fresh))) = Some doc_c /\
  nth_error collection3 2 = Some (DocumentPtr doc_c).
Proof.
  assert (H1 : ~ resolution_fails net_ok fresh)
    by (intros H; apply (H target42); reflexivity).
  assert (H2 : fetched net_ok (snd (getUser net_ok fresh)) =
               inr (mkMessagesStickerSet "trolls" collection3)) by reflexivity.
  assert (H3 : set_Documents (mkMessagesStickerSet "trolls" collection3) =
               [DocumentPtr doc_a; DocumentPtr doc_b] ++ [DocumentPtr doc_c])
    by reflexivity.
  destruct (setup_caches_last_item net_ok fresh _ _ _ H3) as (_ & H5 & _ & H4).
  split; [exact H3|]. split; [exact H1|]. split; [exact H2|].
  split; [apply (H4 H1 H2)|]. apply H5. reflexivity.
Defined.

Lemma Run_returns_first_error_witness :
  Run net_ok true sample_schedule fresh = Some sample_final /\
  rc_parent sample_final = Some Canceled /\
  rc_main sample_final = RunReturned (Some (Wrapf "status loop: %w" Canceled)) /\
  first_error (rc_exits sample_final) = Some (Wrapf "status loop: %w" Canceled).
Proof.
  assert (H : Run net_ok true sample_schedule fresh = Some sample_final)
    by reflexivity.
  destruct (Run_returns_first_error net_ok true sample_schedule fresh sample_final H)
    as (_ & _ & _ & _ & _ & Hr & _).
  split; [exact H|]. split; [reflexivity|]. split; [reflexivity|].
  destruct (Hr (Some (Wrapf "status loop: %w" Canceled)) eq_refl) as (_ & _ & E).
  symmetry. exact E.
Defined.

(** ** Further properties of the store and the reactor *)

Section StoreAndReactor.

Variable net : Transport.
Variable rnd : nat -> Z.

(** X2: A target stored by [getUser] is what [checkUserID] hands back for its
    own identifier, and for no other identifier; the lookup leaves the
    state alone. *)
Theorem getUser_then_checkUserID s u :
  resolution net s = inr (InputPeerUserPtr u) ->
  let s1 := snd (getUser net s) in
  checkUserID (ipu_UserID u) s1 = ((u, true), s1) /\
  (forall id, id <> ipu_UserID u -> checkUserID id s1 = ((InputPeerUser_zero, false), s1)).
Proof.
  intros Hres. cbv zeta.
  assert (Hs1 : resolved (troll (snd (getUser net s))) = Some u).
  { rewrite getUser_spec, Hres. reflexivity. }
  split.
  - rewrite checkUserID_spec, Hs1, Z.eqb_refl. reflexivity.
  - intros id Hne. rewrite checkUserID_spec, Hs1.
    destruct (ipu_UserID u =? id) eqn:E; [|reflexivity].
    apply Z.eqb_eq in E. congruence.
Qed.

(** X3: A sticker stored by [getSticker] is what [checkSticker] hands back, as
    found at the end of the fetched collection. *)
Theorem getSticker_then_checkSticker s set front d :
  fetched net s = inr set ->
  set_Documents set = front ++ [DocumentPtr d] ->
  let s1 := snd (getSticker net s) in
  checkSticker s1 = ((d, true), s1).
Proof.
  intros Hfetch Hdocs. cbv zeta.
  rewrite checkSticker_spec, getSticker_spec. unfold acquisition.
  rewrite Hfetch, Hdocs, rev_unit. reflexivity.
Qed.

(** X4: As long as no target is resolved, which is how [NewTroll] starts,
    [OnNewMessage] ignores every update: nil error, state untouched, no
    call, no log entry, no draw. *)
Theorem unresolved_troll_ignores_everything update s :
  resolved (troll s) = None ->
  OnNewMessage net rnd update s = (None, s).
Proof.
  intros Hnone. apply OnNewMessage_rejected.
  intros msg target (_ & _ & _ & Hres). congruence.
Qed.

(** X5: [OnNewMessage] only reads the store: the [Troll] value is the same
    afterwards, the trace is only extended, and therefore which updates are
    admitted later does not depend on the updates handled before. *)
Theorem OnNewMessage_read_only update s :
  let s1 := snd (OnNewMessage net rnd update s) in
  troll s1 = troll s /\
  (exists ev, trace s1 = trace s ++ ev) /\
  (forall later msg target,
      admitted (troll s1) later msg target <-> admitted (troll s) later msg target).
Proof.
  cbv zeta.
  assert (Htroll : troll (snd (OnNewMessage net rnd update s)) = troll s)
    by apply OnNewMessage_keeps_troll.
  split; [exact Htroll|]. split.
  - destruct (admitted_or_not (troll s) update) as [(msg & target & Hadm)|Hno].
    + destruct (OnNewMessage_admitted_trace net rnd _ _ _ _ Hadm) as (ev & Htr & _).
      exists (got_message msg :: ev). exact Htr.
    + rewrite (OnNewMessage_rejected net rnd _ _ Hno). exists []. simpl.
      rewrite app_nil_r. reflexivity.
  - intros later msg target. rewrite Htroll. reflexivity.
Qed.

(** X6: [rand.Int()] is called only behind [ok &&]: handling an update takes
    one draw from the random source when the update is admitted and a
    sticker is cached, and none otherwise. *)
Theorem OnNewMessage_draws update s :
  let n := draws (snd (OnNewMessage net rnd update s)) in
  (forall msg target asset,
      admitted (troll s) update msg target ->
      sticker (troll s) = Some asset ->
      n = S (draws s)) /\
  (sticker (troll s) = None -> n = draws s) /\
  ((forall msg target, ~ admitted (troll s) update msg target) -> n = draws s).
Proof.
  cbv zeta.
  assert (Hadm : forall msg target,
             admitted (troll s) update msg target ->
             draws (snd (OnNewMessage net rnd update s)) = draws (at_dispatch msg s)).
  { intros msg target H. rewrite (OnNewMessage_admitted net rnd _ _ _ _ H).
    destruct (perform_trace net target (msg_ID msg)
                (decision (sticker (troll s)) (drawn_bit rnd s)) (at_dispatch msg s))
      as (_ & _ & _ & _ & Hd).
    exact Hd. }
  split; [|split].
  - intros msg target asset H Hst. rewrite (Hadm _ _ H).
    unfold at_dispatch. rewrite Hst. reflexivity.
  - intros Hst.
    destruct (admitted_or_not (troll s) update) as [(msg & target & H)|Hno].
    + rewrite (Hadm _ _ H). unfold at_dispatch. rewrite Hst. reflexivity.
    + rewrite (OnNewMessage_rejected net rnd _ _ Hno). reflexivity.
  - intros Hno. rewrite (OnNewMessage_rejected net rnd _ _ Hno). reflexivity.
Qed.

(** X7: On the sticker branch [OnNewMessage] logs twice, makes the reply call
    with the file location of the cached document and returns the answer
    of that call as it is: no forward, no delete, no warning. *)
Theorem OnNewMessage_reply_error_propagated update msg target asset s :
  admitted (troll s) update msg target ->
  sticker (troll s) = Some asset ->
  drawn_bit rnd s = 0 ->
  let out := OnNewMessage net rnd update s in
  let file := mkInputDocumentFileLocation (doc_ID asset) (doc_AccessHash asset)
                                          (doc_FileReference asset) "" in
  trace (snd out) =
    trace s ++ [got_message msg;
                Log InfoLevel "Answer sticker" [FInt "msg_id" (msg_ID msg)];
                Remote (CallReplyDocument target (msg_ID msg) file)] /\
  fst out = ask_reply net (trace (snd out)) target (msg_ID msg) file.
Proof.
  intros Hadm Hst Hbit. cbv zeta.
  rewrite (OnNewMessage_admitted net rnd _ _ _ _ Hadm), Hst, Hbit.
  cbn [decision Z.eqb perform]. rewrite ignored_spec.
  cbn [fst snd trace at_dispatch]. rewrite <- app_assoc.
  split; reflexivity.
Qed.

End StoreAndReactor.

(** ** Further properties of setup *)

Section SetupMore.

Variable net : Transport.
Variable rnd : nat -> Z.

Lemma setup_trace s :
  trace (snd (setup net s)) =
  trace s ++
  match resolution net s with
  | inr (InputPeerUserPtr u) =>
      let s1 := snd (getUser net s) in
      [Remote (CallResolveUser (domain (troll s)));
       Log InfoLevel "Got user" [FString "user" (domain (troll s))];
       Remote (CallGetStickerSet (stickerSet (troll s)))] ++
      match acquisition (fetched net s1) with
      | inl why => [Log WarnLevel "Get sticker failed" [FError (acquisition_error why)]]
      | inr _ => [Log InfoLevel "Got sticker set" [FString "stickerset" (stickerSet (troll s))]]
      end
  | _ => [Remote (CallResolveUser (domain (troll s)))]
  end.
Proof.
  rewrite setup_spec. cbv zeta.
  assert (Hu := getUser_spec net s). cbv zeta in Hu.
  destruct (resolution net s) as [err|[| |c|u|c a]];
    rewrite Hu; cbn [fst snd trace]; try reflexivity.
  rewrite getSticker_spec. cbn [troll trace draws stickerSet set_resolved].
  destruct (acquisition _) as [why|d]; cbn [fst snd troll trace draws];
    rewrite <- ?app_assoc; reflexivity.
Qed.

(** X8: [setup] asks the transport to resolve the domain first and fetches the
    sticker set only after a user was resolved: when resolution fails, the
    resolve call is the only remote call and the sticker set is never
    asked for.  [setup] takes no draw from the random source. *)
Theorem setup_calls s :
  calls_of (appended s (snd (setup net s))) =
    match resolution net s with
    | inr (InputPeerUserPtr _) =>
        [CallResolveUser (domain (troll s)); CallGetStickerSet (stickerSet (troll s))]
    | _ => [CallResolveUser (domain (troll s))]
    end /\
  draws (snd (setup net s)) = draws s.
Proof.
  split.
  - rewrite (appended_app _ _ _ (setup_trace s)).
    destruct (resolution net s) as [err|[| |c|u|c a]]; try reflexivity.
    cbv zeta. destruct (acquisition _); reflexivity.
  - rewrite setup_spec. cbv zeta.
    assert (Hu := getUser_spec net s). cbv zeta in Hu.
    destruct (resolution net s) as [err|[| |c|u|c a]];
      rewrite Hu; cbn [fst snd draws]; try reflexivity.
    rewrite getSticker_spec.
    destruct (acquisition _); reflexivity.
Qed.

Lemma setup_resolved_after s u :
  resolution net s = inr (InputPeerUserPtr u) ->
  resolved (troll (snd (setup net s))) = Some u.
Proof.
  intros Hres. rewrite setup_spec. cbv zeta.
  assert (Hu := getUser_spec net s). cbv zeta in Hu. rewrite Hres in Hu.
  rewrite Hu. cbn [fst snd]. rewrite getSticker_spec.
  destruct (acquisition _); reflexivity.
Qed.

(** X9: When the transport resolves the domain to a user, [setup] succeeds and
    stores that user as the target, replacing whatever was stored, whether
    or not a sticker could be fetched; domain, sticker-set name and limiter
    stay as configured. *)
Theorem setup_stores_target s u :
  resolution net s = inr (InputPeerUserPtr u) ->
  let t1 := troll (snd (setup net s)) in
  fst (setup net s) = None /\
  resolved t1 = Some u /\
  domain t1 = domain (troll s) /\
  stickerSet t1 = stickerSet (troll s) /\
  limiter t1 = limiter (troll s).
Proof.
  intros Hres. cbv zeta. rewrite setup_spec. cbv zeta.
  assert (Hu := getUser_spec net s). cbv zeta in Hu. rewrite Hres in Hu.
  rewrite Hu. cbn [fst snd]. rewrite getSticker_spec.
  destruct (acquisition _); cbn [fst snd troll]; repeat split.
Qed.

(** X10: After a successful [setup], a plain incoming message from a user peer
    is admitted by [OnNewMessage] exactly when the peer is the resolved
    user; a message from any other user is dropped without a trace. *)
Theorem setup_then_OnNewMessage s u update msg uid :
  resolution net s = inr (InputPeerUserPtr u) ->
  upd_Message update = MessagePtr msg ->
  msg_Out msg = false ->
  msg_PeerID msg = PeerUser uid ->
  let s1 := snd (setup net s) in
  let out := OnNewMessage net rnd update s1 in
  (uid = ipu_UserID u ->
   exists ev, trace (snd out) = trace s1 ++ got_message msg :: ev /\ calls_of ev <> []) /\
  (uid <> ipu_UserID u -> out = (None, s1)).
Proof.
  intros Hres Hm Hout Hpeer. cbv zeta.
  pose proof (setup_resolved_after s u Hres) as Hs1.
  split.
  - intros ->.
    assert (Hadm : admitted (troll (snd (setup net s))) update msg u)
      by (unfold admitted; auto).
    destruct (OnNewMessage_admitted_trace net rnd _ _ _ _ Hadm) as (ev & Htr & Hcalls & _).
    exists ev. split; [exact Htr|]. rewrite Hcalls.
    destruct (decision _ _); discriminate.
  - intros Hne. apply OnNewMessage_rejected.
    intros m tg (H1 & _ & H3 & H4).
    rewrite Hm in H1. injection H1 as <-.
    rewrite Hs1 in H4. injection H4 as <-.
    rewrite Hpeer in H3. injection H3 as ->. congruence.
Qed.

(** X1: A [Troll] made by [NewTroll] starts with nothing resolved and nothing
    cached, so both lookups miss; [setup] on it asks the transport for the
    domain and the sticker set it was made with, and leaves the limiter as
    [NewTroll] configured it. *)
Theorem NewTroll_then_setup dom name tr n :
  let s := mkState (NewTroll dom name) tr n in
  (forall id, fst (checkUserID id s) = (InputPeerUser_zero, false)) /\
  fst (checkSticker s) = (Document_zero, false) /\
  (exists rest,
      calls_of (appended s (snd (setup net s))) = CallResolveUser dom :: rest /\
      (rest = [] \/ rest = [CallGetStickerSet name])) /\
  limiter (troll (snd (setup net s))) = NewLimiter (15 * Second) 1.
Proof.
  cbv zeta. split; [|split; [|split]].
  - intros id. rewrite checkUserID_spec. reflexivity.
  - rewrite checkSticker_spec. reflexivity.
  - rewrite (appended_app _ _ _ (setup_trace (mkState (NewTroll dom name) tr n))).
    cbn [troll domain stickerSet NewTroll].
    destruct (resolution net _) as [err|[| |c|u|c a]];
      try (exists []; split; [reflexivity|left; reflexivity]).
    exists [CallGetStickerSet name]. cbv zeta. split; [|right; reflexivity].
    destruct (acquisition _); reflexivity.
  - rewrite setup_spec. cbv zeta.
    assert (Hu := getUser_spec net (mkState (NewTroll dom name) tr n)). cbv zeta in Hu.
    destruct (resolution net _) as [err|[| |c|u|c a]];
      rewrite Hu; cbn [fst snd]; try reflexivity.
    rewrite getSticker_spec. destruct (acquisition _); reflexivity.
Qed.

End SetupMore.

(** ** Errors of the setup steps *)

Section SetupErrors.

Variable net : Transport.

(** X11: The error [setup] returns keeps the transport's resolve error at the
    end of its chain of [%w] wrappers, so unwrapping reaches it; when a
    peer that is not a user was resolved the chain ends in the
    unexpected-type error; and [setup] returns nothing else. *)
Theorem setup_error_chain s :
  match resolution net s with
  | inl err =>
      fst (setup net s) = Some (Wrapf "get user: %w" (Wrapf "resolve %q: %w" err)) /\
      option_map root_cause (fst (setup net s)) = Some (root_cause err)
  | inr (InputPeerUserPtr _) => fst (setup net s) = None
  | inr _ =>
      fst (setup net s) = Some (Wrapf "get user: %w" (Errorf "unexpected type %T"))
  end.
Proof.
  rewrite setup_spec. cbv zeta.
  assert (Hu := getUser_spec net s). cbv zeta in Hu.
  destruct (resolution net s) as [err|[| |c|u|c a]];
    rewrite Hu; cbn [fst snd]; auto.
Qed.

End SetupErrors.

(** X12: The error of a failed sticker-set fetch is dropped: whatever error the
    transport answered, [getSticker] returns the same error and leaves the
    same state, so the warning [setup] logs does not tell them apart. *)
Theorem getSticker_drops_fetch_error net1 net2 s err1 err2 :
  fetched net1 s = inl err1 ->
  fetched net2 s = inl err2 ->
  getSticker net1 s = getSticker net2 s /\
  fst (getSticker net1 s) = Some (Errorf "get sticker set %q").
Proof.
  intros H1 H2. rewrite !getSticker_spec, H1, H2. split; reflexivity.
Qed.

(** X13: [getSticker] decides on the last document of the fetched set and
    on no other: two sets that end with the same document leave the same
    state and succeed or fail together; when that document is a sticker
    both runs return nil and cache it, whatever precedes it; when it is
    empty both runs fail and the cached sticker stays as it was, even when
    every other document is a sticker. *)
Theorem getSticker_looks_at_last_only net1 net2 s set1 set2 front1 front2 last :
  fetched net1 s = inr set1 ->
  fetched net2 s = inr set2 ->
  set_Documents set1 = front1 ++ [last] ->
  set_Documents set2 = front2 ++ [last] ->
  snd (getSticker net1 s) = snd (getSticker net2 s) /\
  (fst (getSticker net1 s) = None <-> fst (getSticker net2 s) = None) /\
  (forall d, last = DocumentPtr d ->
             fst (getSticker net1 s) = None /\
             fst (getSticker net2 s) = None /\
             sticker (troll (snd (getSticker net1 s))) = Some d) /\
  (forall id, last = DocumentEmpty id ->
              fst (getSticker net1 s) = Some (Errorf "last sticker is empty document %v") /\
              fst (getSticker net2 s) <> None /\
              sticker (troll (snd (getSticker net1 s))) = sticker (troll s)).
Proof.
  intros H1 H2 D1 D2. rewrite !getSticker_spec. unfold acquisition.
  rewrite H1, H2, D1, D2, !rev_unit.
  split; [|split; [|split]].
  - destruct last; reflexivity.
  - destruct last; cbn [fst]; split; intros H; try discriminate; reflexivity.
  - intros d ->. repeat split.
  - intros id ->. cbn [fst snd troll acquisition_error]. repeat split. discriminate.
Qed.

(** ** Further properties of the status loop *)

Section StatusLoopMore.

Variable net : Transport.

Lemma statusLoop_tick_keeps s :
  troll (snd (statusLoop_tick net s)) = troll s /\
  draws (snd (statusLoop_tick net s)) = draws s.
Proof. rewrite statusLoop_tick_spec. split; reflexivity. Qed.

Lemma statusLoop_for_keeps arms : forall s,
  troll (snd (statusLoop_for net arms s)) = troll s /\
  draws (snd (statusLoop_for net arms s)) = draws s.
Proof.
  induction arms as [|[err|] rest IH]; intros s; cbn [statusLoop_for].
  - split; reflexivity.
  - split; reflexivity.
  - unfold bind. destruct (statusLoop_tick net s) as [[] s1] eqn:E.
    destruct (IH s1) as (H1 & H2). rewrite H1, H2.
    destruct (statusLoop_tick_keeps s) as (K1 & K2). rewrite E in K1, K2. auto.
Qed.

Lemma statusLoop_for_cut pre err rest : forall s,
  statusLoop_for net (pre ++ CtxDone err :: rest) s =
  statusLoop_for net (pre ++ [CtxDone err]) s.
Proof.
  induction pre as [|[e|] pre IH]; intros s; cbn [app statusLoop_for];
    try reflexivity.
  unfold bind. destruct (statusLoop_tick net s) as [[] s1]. apply IH.
Qed.

Lemma statusLoop_for_app arms1 arms2 : forall s,
  first_done arms1 = None ->
  statusLoop_for net (arms1 ++ arms2) s =
  statusLoop_for net arms2 (snd (statusLoop_for net arms1 s)).
Proof.
  induction arms1 as [|[e|] rest IH]; intros s Hnone; cbn [app statusLoop_for].
  - reflexivity.
  - discriminate.
  - unfold bind. destruct (statusLoop_tick net s) as [[] s1]. apply IH. exact Hnone.
Qed.

(** X14: [statusLoop] never writes the store and takes no draw, and whatever
    the [select] would do after the first [ctx.Done()] arm has no effect:
    the loop is gone by then. *)
Theorem statusLoop_stops_for_good pre err rest s :
  statusLoop net (pre ++ CtxDone err :: rest) s =
    statusLoop net (pre ++ [CtxDone err]) s /\
  troll (snd (statusLoop net (pre ++ CtxDone err :: rest) s)) = troll s /\
  draws (snd (statusLoop net (pre ++ CtxDone err :: rest) s)) = draws s.
Proof.
  unfold statusLoop. unfold bind at 1 2 3 4.
  destruct (statusLoop_enter s) as [[] s1] eqn:E.
  assert (Hs1 : troll s1 = troll s /\ draws s1 = draws s).
  { unfold statusLoop_enter in E. revert E. go_unfold. cbn.
    intros E. injection E as <-. split; reflexivity. }
  destruct Hs1 as (T1 & D1).
  destruct (statusLoop_for_keeps (pre ++ CtxDone err :: rest) s1) as (T2 & D2).
  split; [apply statusLoop_for_cut|]. split; congruence.
Qed.

(** X15: A loop that is blocked after some ticks goes on from where it stands:
    running it on the ticks taken so far and then on the later arms is the
    same as running it on all of them. *)
Theorem statusLoop_resumes arms1 arms2 s :
  first_done arms1 = None ->
  fst (statusLoop net arms1 s) = Blocked /\
  statusLoop net (arms1 ++ arms2) s =
    statusLoop_for net arms2 (snd (statusLoop net arms1 s)).
Proof.
  intros Hnone. unfold statusLoop. unfold bind at 1 2 3.
  destruct (statusLoop_enter s) as [[] s1]. split.
  - destruct (statusLoop_for_spec net arms1 s1) as (H & _).
    rewrite H. unfold loop_outcome. rewrite Hnone. reflexivity.
  - apply statusLoop_for_app. exact Hnone.
Qed.

End StatusLoopMore.

(** ** Further properties of [Run] *)

Section LifecycleMore.

Variable net : Transport.

Ltac rc_fields :=
  cbn [rc_prog rc_parent rc_ctx rc_gerr rc_setup rc_status rc_main rc_exits
       with_prog with_setup with_status with_main] in *.

Lemma first_error_in (exits : list (TaskId * option error)) id e :
  In (id, Some e) exits -> first_error exits <> None.
Proof.
  induction exits as [|[i [e0|]] rest IH]; simpl; intros H.
  - destruct H.
  - discriminate.
  - destruct H as [H|H]; [discriminate|]. apply IH. exact H.
Qed.

Lemma first_error_some_in (exits : list (TaskId * option error)) e :
  first_error exits = Some e -> exists id, In (id, Some e) exits.
Proof.
  induction exits as [|[i [e0|]] rest IH]; simpl; intros H.
  - discriminate.
  - injection H as ->. exists i. left. reflexivity.
  - destruct (IH H) as (id & Hin). exists id. right. exact Hin.
Qed.

Lemma Run_step_cause_inv st s s' :
  Run_cause_inv s -> Run_step net st s = Some s' -> Run_cause_inv s'.
Proof.
  intros (Hj & Hk) Hstep.
  destruct st; cbv beta iota zeta delta [Run_step] in Hstep.
  - destruct (rc_parent s) eqn:Hpar; [discriminate|].
    apply Some_eq in Hstep; subst s'. split; rc_fields.
    + intros Hg. rewrite (Hj Hg). reflexivity.
    + intros e Hg. destruct (Hk e Hg) as [H|(reason' & _ & H)]; [left; exact H|discriminate].
  - destruct (rc_setup s) eqn:Hsu; try discriminate.
    apply Some_eq in Hstep; subst s'.
    match goal with
    | |- Run_cause_inv (group_exit ?i ?e ?s0) =>
        destruct (group_exit_fields i e s0) as (_ & E2 & _ & _ & _ & _ & E7 & E8)
    end.
    cbv zeta in *. rc_fields. split; rewrite ?E2, ?E7, ?E8.
    + destruct (rc_gerr s) as [g|]; [discriminate|].
      destruct (wrap_nonnil _ _); [discriminate|]. intros _. apply Hj. reflexivity.
    + intros e. destruct (rc_gerr s) as [g|] eqn:Hg.
      * intros H. apply (Hk e H).
      * unfold wrap_nonnil. destruct (fst (setup net (rc_prog s))); [|discriminate].
        intros H. injection H as <-. left. eexists. reflexivity.
  - destruct (rc_status s) as [[| |]|]; try discriminate.
    apply Some_eq in Hstep; subst s'. split; rc_fields; assumption.
  - destruct (rc_status s) as [[| |]|]; try discriminate.
    apply Some_eq in Hstep; subst s'. split; rc_fields; assumption.
  - destruct (rc_status s) as [[| |]|]; try discriminate.
    destruct (rc_ctx s) as [reason|] eqn:Hctx; try discriminate.
    apply Some_eq in Hstep; subst s'.
    match goal with
    | |- Run_cause_inv (group_exit ?i ?e ?s0) =>
        destruct (group_exit_fields i e s0) as (_ & E2 & _ & _ & _ & _ & E7 & E8)
    end.
    cbv zeta in *. rc_fields. split; rewrite ?E2, ?E7, ?E8.
    + destruct (rc_gerr s) as [g|]; discriminate.
    + intros e. destruct (rc_gerr s) as [g|] eqn:Hg.
      * intros H. apply (Hk e H).
      * cbn [wrap_nonnil]. intros H. injection H as <-. right. exists reason.
        split; [reflexivity|]. symmetry. apply Hj. reflexivity.
  - destruct (rc_main s); try discriminate.
    destruct (rc_ctx s) eqn:Hctx; try discriminate.
    apply Some_eq in Hstep; subst s'. split; rc_fields; rewrite ?Hctx; assumption.
  - destruct (rc_main s); try discriminate.
    destruct (task_done (Some (rc_setup s)) && task_done (rc_status s));
      try discriminate.
    apply Some_eq in Hstep; subst s'. split; rc_fields; assumption.
Qed.

Lemma Run_steps_cause_inv sched : forall s s',
  Run_cause_inv s -> Run_steps net sched s = Some s' -> Run_cause_inv s'.
Proof.
  induction sched as [|st rest IH]; intros s s' Hinv Hrun; simpl in Hrun.
  - apply Some_eq in Hrun; subst s'. exact Hinv.
  - destruct (Run_step net st s) as [s1|] eqn:Hstep; [|discriminate].
    apply (IH s1 s'); [|exact Hrun]. apply (Run_step_cause_inv st s); assumption.
Qed.

(** X16: With the status loop enabled [Run] never returns nil: the loop leaves
    only with the derived context's error, wrapped.  When [setup] had
    succeeded, what [Run] returns is the loop's wrapping of the reason the
    caller's context was cancelled with. *)
Theorem Run_with_status_loop_returns_its_error sched p s r :
  Run net true sched p = Some s ->
  rc_main s = RunReturned r ->
  r <> None /\
  (In (SetupTask, None) (rc_exits s) ->
   exists reason,
     rc_parent s = Some reason /\ r = Some (Wrapf "status loop: %w" reason)).
Proof.
  unfold Run. intros Hrun Hret.
  pose proof (Run_steps_inv net sched _ _ (Run_start_inv net true p) Hrun)
    as (Hg & Hc & Hm & Hr & Hx & Hs & Hl).
  assert (Hc0 : Run_cause_inv (Run_start true p)).
  { split; cbn; [reflexivity|discriminate]. }
  pose proof (Run_steps_cause_inv sched _ _ Hc0 Hrun) as (Hj & Hk).
  destruct (Hr r Hret) as (-> & _ & Hdone).
  assert (Hst : rc_status s <> None).
  { rewrite (Run_steps_status_none net sched _ _ Hrun). discriminate. }
  destruct (rc_status s) as [[| |err]|] eqn:Est; try discriminate; try congruence.
  assert (Hin : In (StatusTask, err) (rc_exits s)) by (apply Hx; exact Est).
  assert (Hshape : exists reason, err = Some (Wrapf "status loop: %w" reason)).
  { rewrite Forall_forall in Hs. destruct (Hs _ Hin) as (reason & _ & H).
    exists reason. exact H. }
  destruct Hshape as (reason & ->).
  assert (Hne : rc_gerr s <> None).
  { rewrite Hg. apply (first_error_in _ _ _ Hin). }
  split; [exact Hne|].
  intros Hsetup.
  destruct (rc_gerr s) as [e|] eqn:Eg; [|congruence].
  assert (Hfe : first_error (rc_exits s) = Some e) by congruence.
  destruct (first_error_some_in _ _ Hfe) as ([|] & Hine).
  - apply Hx in Hine. apply Hx in Hsetup. cbn in Hine, Hsetup. congruence.
  - apply Hx in Hine. cbn in Hine. rewrite Est in Hine. injection Hine as <-.
    destruct (Hk _ eq_refl) as [(e' & H)|(reason' & H & Hpar)].
    + discriminate.
    + injection H as <-. exists reason. auto.
Qed.

Lemma Run_step_noloop_inv p st s s' :
  Run_noloop_inv net p s -> Run_step net st s = Some s' -> Run_noloop_inv net p s'.
Proof.
  unfold Run_noloop_inv. intros (Hst & Hsu) Hstep.
  destruct st; cbv beta iota zeta delta [Run_step] in Hstep.
  - destruct (rc_parent s); [discriminate|].
    apply Some_eq in Hstep; subst s'. rc_fields. auto.
  - destruct (rc_setup s) eqn:Esu; try discriminate. destruct Hsu as (Hp & Hg).
    apply Some_eq in Hstep; subst s'.
    match goal with
    | |- rc_status (group_exit ?i ?e ?s0) = None /\ _ =>
        destruct (group_exit_fields i e s0) as (E1 & _ & E3 & E4 & _ & _ & E7 & _)
    end.
    cbv zeta in *. rewrite E1, E3, E4, E7. rc_fields. rewrite Hg, Hp. auto.
  - rewrite Hst in Hstep. discriminate.
  - rewrite Hst in Hstep. discriminate.
  - rewrite Hst in Hstep. discriminate.
  - destruct (rc_main s); try discriminate. destruct (rc_ctx s); try discriminate.
    apply Some_eq in Hstep; subst s'. rc_fields. auto.
  - destruct (rc_main s); try discriminate.
    destruct (task_done (Some (rc_setup s)) && task_done (rc_status s));
      try discriminate.
    apply Some_eq in Hstep; subst s'. rc_fields. auto.
Qed.

Lemma Run_steps_noloop_inv p sched : forall s s',
  Run_noloop_inv net p s -> Run_steps net sched s = Some s' -> Run_noloop_inv net p s'.
Proof.
  induction sched as [|st rest IH]; intros s s' Hinv Hrun; simpl in Hrun.
  - apply Some_eq in Hrun; subst s'. exact Hinv.
  - destruct (Run_step net st s) as [s1|] eqn:Hstep; [|discriminate].
    apply (IH s1 s'); [|exact Hrun]. apply (Run_step_noloop_inv p st s); assumption.
Qed.

(** X17: Without the status loop [Run] is [setup] and a wait: what it returns is
    the result of [setup] run in the starting state, a non-nil error
    wrapped, the store is the one [setup] leaves, and a nil return comes
    only after the caller cancelled. *)
Theorem Run_without_status_loop sched p s r :
  Run net false sched p = Some s ->
  rc_main s = RunReturned r ->
  r = wrap_nonnil "setup: %w" (fst (setup net p)) /\
  rc_prog s = snd (setup net p) /\
  (r = None -> rc_parent s <> None).
Proof.
  unfold Run. intros Hrun Hret.
  pose proof (Run_steps_inv net sched _ _ (Run_start_inv net false p) Hrun)
    as (Hg & Hc & Hm & Hr & Hx & Hs & Hl).
  assert (Hn0 : Run_noloop_inv net p (Run_start false p)).
  { unfold Run_noloop_inv. cbn. auto. }
  pose proof (Run_steps_noloop_inv p sched _ _ Hn0 Hrun) as (_ & Hsu).
  destruct (Hr r Hret) as (-> & Hdone & _).
  destruct (rc_setup s) as [| |err]; try discriminate.
  destruct Hsu as (-> & Hp & Hge).
  split; [exact Hge|]. split; [exact Hp|].
  intros Hnil.
  assert (Hctx : rc_ctx s <> None) by (apply Hm; rewrite Hret; discriminate).
  apply Hc in Hctx. destruct Hctx as [H|H]; [exact H|congruence].
Qed.

Lemma count_resolve_app tr1 tr2 :
  count_resolve (tr1 ++ tr2) = (count_resolve tr1 + count_resolve tr2)%nat.
Proof.
  induction tr1 as [|[l m f|[d|n|o|t r f|f i|i]|d] rest IH]; simpl; auto.
Qed.

Lemma setup_count_resolve s :
  count_resolve (trace (snd (setup net s))) = S (count_resolve (trace s)).
Proof.
  rewrite setup_trace, count_resolve_app.
  destruct (resolution net s) as [err|[| |c|u|c a]]; cbv zeta;
    try (simpl; lia).
  destruct (acquisition _); simpl; lia.
Qed.

Lemma Run_step_count_resolve st s s' :
  Run_step net st s = Some s' ->
  (count_resolve (trace (rc_prog s')) + setup_finished s =
   count_resolve (trace (rc_prog s)) + setup_finished s')%nat.
Proof.
  intros Hstep. unfold setup_finished.
  destruct st; cbv beta iota zeta delta [Run_step] in Hstep.
  - destruct (rc_parent s); [discriminate|].
    apply Some_eq in Hstep; subst s'. reflexivity.
  - destruct (rc_setup s) eqn:Esu; try discriminate.
    apply Some_eq in Hstep; subst s'.
    match goal with
    | |- context [group_exit ?i ?e ?s0] =>
        destruct (group_exit_fields i e s0) as (E1 & _ & E3 & _)
    end.
    cbv zeta in *. rewrite E1, E3. rc_fields. rewrite setup_count_resolve. lia.
  - destruct (rc_status s) as [[| |]|]; try discriminate.
    apply Some_eq in Hstep; subst s'. rc_fields.
    unfold statusLoop_enter; go_unfold; cbn [snd trace].
    rewrite !count_resolve_app. simpl. lia.
  - destruct (rc_status s) as [[| |]|]; try discriminate.
    apply Some_eq in Hstep; subst s'. rc_fields.
    rewrite statusLoop_tick_spec. cbn [snd trace].
    rewrite !count_resolve_app.
    destruct (ask_update_status net _ false); simpl; lia.
  - destruct (rc_status s) as [[| |]|]; try discriminate.
    destruct (rc_ctx s); try discriminate.
    apply Some_eq in Hstep; subst s'.
    match goal with
    | |- context [group_exit ?i ?e ?s0] =>
        destruct (group_exit_fields i e s0) as (E1 & _ & E3 & _)
    end.
    cbv zeta in *. rewrite E1, E3. rc_fields. reflexivity.
  - destruct (rc_main s); try discriminate. destruct (rc_ctx s); try discriminate.
    apply Some_eq in Hstep; subst s'. reflexivity.
  - destruct (rc_main s); try discriminate.
    destruct (task_done (Some (rc_setup s)) && task_done (rc_status s));
      try discriminate.
    apply Some_eq in Hstep; subst s'. reflexivity.
Qed.

Lemma Run_steps_count_resolve sched : forall s s',
  Run_steps net sched s = Some s' ->
  (count_resolve (trace (rc_prog s')) + setup_finished s =
   count_resolve (trace (rc_prog s)) + setup_finished s')%nat.
Proof.
  induction sched as [|st rest IH]; intros s s' Hrun; simpl in Hrun.
  - apply Some_eq in Hrun; subst s'. reflexivity.
  - destruct (Run_step net st s) as [s1|] eqn:Hstep; [|discriminate].
    pose proof (Run_step_count_resolve _ _ _ Hstep). pose proof (IH _ _ Hrun). lia.
Qed.

(** X18: However the goroutines are scheduled and however long the status loop
    ticks, [Run] asks the transport to resolve the target at most once, and
    exactly once by the time it returns. *)
Theorem Run_resolves_once statusLoop sched p s :
  Run net statusLoop sched p = Some s ->
  count_resolve (trace (rc_prog s)) =
    (count_resolve (trace p) + setup_finished s)%nat /\
  (setup_finished s <= 1)%nat /\
  (forall r, rc_main s = RunReturned r ->
             count_resolve (trace (rc_prog s)) = S (count_resolve (trace p))).
Proof.
  unfold Run. intros Hrun.
  pose proof (Run_steps_count_resolve sched _ _ Hrun) as Hcount.
  cbn [Run_start rc_prog] in Hcount.
  assert (H0 : setup_finished (Run_start statusLoop p) = 0%nat) by reflexivity.
  rewrite H0 in Hcount.
  split; [lia|]. split.
  - unfold setup_finished. destruct (rc_setup s); lia.
  - intros r Hret.
    pose proof (Run_steps_inv net sched _ _ (Run_start_inv net statusLoop p) Hrun)
      as (_ & _ & _ & Hr & _).
    destruct (Hr r Hret) as (_ & Hdone & _).
    unfold setup_finished in *. destruct (rc_setup s); try discriminate. lia.
Qed.

End LifecycleMore.

(** ** Further scenarios *)

Lemma getUser_then_checkUserID_witness :
  resolution net_ok fresh = inr (InputPeerUserPtr target42) /\
  fst (checkUserID 42 (snd (getUser net_ok fresh))) = (target42, true) /\
  fst (checkUserID 43 (snd (getUser net_ok fresh))) = (InputPeerUser_zero, false).
Proof.
  assert (H : resolution net_ok fresh = inr (InputPeerUserPtr target42)) by reflexivity.
  destruct (getUser_then_checkUserID net_ok fresh target42 H) as (H1 & H2).
  split; [exact H|]. split.
  - change 42 with (ipu_UserID target42). rewrite H1. reflexivity.
  - rewrite (H2 43); [reflexivity|discriminate].
Defined.

Lemma getSticker_then_checkSticker_witness :
  fetched net_ok fresh = inr (mkMessagesStickerSet "trolls" collection3) /\
  set_Documents (mkMessagesStickerSet "trolls" collection3) =
    [DocumentPtr doc_a; DocumentPtr doc_b] ++ [DocumentPtr doc_c] /\
  fst (checkSticker (snd (getSticker net_ok fresh))) = (doc_c, true).
Proof.
  assert (H1 : fetched net_ok fresh = inr (mkMessagesStickerSet "trolls" collection3))
    by reflexivity.
  assert (H2 : set_Documents (mkMessagesStickerSet "trolls" collection3) =
               [DocumentPtr doc_a; DocumentPtr doc_b] ++ [DocumentPtr doc_c])
    by reflexivity.
  split; [exact H1|]. split; [exact H2|].
  rewrite (getSticker_then_checkSticker net_ok fresh _ _ _ H1 H2). reflexivity.
Defined.

Lemma unresolved_troll_ignores_everything_witness :
  resolved (troll fresh) = None /\
  OnNewMessage net_ok rnd_even (hi_from 42 1700000000) fresh = (None, fresh).
Proof.
  split; [reflexivity|].
  apply (unresolved_troll_ignores_everything net_ok rnd_even).
  reflexivity.
Defined.

Lemma OnNewMessage_reply_error_propagated_witness :
  admitted (troll armed) (hi_from 42 1700000000) hi42 target42 /\
  sticker (troll armed) = Some doc_c /\
  drawn_bit rnd_even armed = 0 /\
  fst (OnNewMessage net_flaky rnd_even (hi_from 42 1700000000) armed) =
    Some (RemoteErr "MEDIA_EMPTY").
Proof.
  assert (H1 : admitted (troll armed) (hi_from 42 1700000000) hi42 target42)
    by (repeat split).
  assert (H2 : sticker (troll armed) = Some doc_c) by reflexivity.
  assert (H3 : drawn_bit rnd_even armed = 0) by reflexivity.
  split; [exact H1|]. split; [exact H2|]. split; [exact H3|].
  destruct (OnNewMessage_reply_error_propagated net_flaky rnd_even _ _ _ _ _ H1 H2 H3)
    as (_ & H). rewrite H. reflexivity.
Defined.

Lemma setup_stores_target_witness :
  resolution net_flaky fresh = inr (InputPeerUserPtr target42) /\
  fst (setup net_flaky fresh) = None /\
  resolved (troll (snd (setup net_flaky fresh))) = Some target42.
Proof.
  assert (H : resolution net_flaky fresh = inr (InputPeerUserPtr target42))
    by reflexivity.
  destruct (setup_stores_target net_flaky fresh target42 H) as (H1 & H2 & _).
  split; [exact H|]. split; [exact H1|exact H2].
Defined.

Lemma setup_then_OnNewMessage_witness :
  resolution net_ok fresh = inr (InputPeerUserPtr target42) /\
  upd_Message (hi_from 43 1700000000) =
    MessagePtr (mkMessage false 1001 (PeerUser 43) "hi" 1700000000) /\
  msg_Out (mkMessage false 1001 (PeerUser 43) "hi" 1700000000) = false /\
  msg_PeerID (mkMessage false 1001 (PeerUser 43) "hi" 1700000000) = PeerUser 43 /\
  OnNewMessage net_ok rnd_even (hi_from 43 1700000000) (snd (setup net_ok fresh)) =
    (None, snd (setup net_ok fresh)).
Proof.
  assert (H : resolution net_ok fresh = inr (InputPeerUserPtr target42)) by reflexivity.
  split; [exact H|]. split; [reflexivity|]. split; [reflexivity|].
  split; [reflexivity|].
  apply (setup_then_OnNewMessage net_ok rnd_even fresh target42
           (hi_from 43 1700000000)
           (mkMessage false 1001 (PeerUser 43) "hi" 1700000000) 43
           H eq_refl eq_refl eq_refl).
  discriminate.
Defined.

Lemma getSticker_drops_fetch_error_witness :
  fetched net_down fresh = inl (RemoteErr "STICKERSET_INVALID") /\
  fetched net_timeout fresh = inl (RemoteErr "TIMEOUT") /\
  getSticker net_down fresh = getSticker net_timeout fresh.
Proof.
  split; [reflexivity|]. split; [reflexivity|].
  apply (getSticker_drops_fetch_error net_down net_timeout fresh
           (RemoteErr "STICKERSET_INVALID") (RemoteErr "TIMEOUT") eq_refl eq_refl).
Defined.

Lemma getSticker_looks_at_last_only_witness :
  (fetched net_ok fresh = inr (mkMessagesStickerSet "trolls" collection3) /\
   fetched net_pair fresh =
     inr (mkMessagesStickerSet "trolls" [DocumentEmpty 9; DocumentPtr doc_c]) /\
   sticker (troll (snd (getSticker net_ok fresh))) = Some doc_c /\
   snd (getSticker net_ok fresh) = snd (getSticker net_pair fresh)) /\
  (fetched net_hollow fresh = inr (mkMessagesStickerSet "trolls" [DocumentEmpty 9]) /\
   fetched net_hollow3 fresh =
     inr (mkMessagesStickerSet "others"
            [DocumentPtr doc_a; DocumentPtr doc_b; DocumentEmpty 9]) /\
   fst (getSticker net_hollow3 fresh) <> None /\
   sticker (troll (snd (getSticker net_hollow fresh))) = None).
Proof.
  destruct (getSticker_looks_at_last_only net_ok net_pair fresh
              (mkMessagesStickerSet "trolls" collection3)
              (mkMessagesStickerSet "trolls" [DocumentEmpty 9; DocumentPtr doc_c])
              [DocumentPtr doc_a; DocumentPtr doc_b] [DocumentEmpty 9] (DocumentPtr doc_c)
              eq_refl eq_refl eq_refl eq_refl) as (A1 & _ & A3 & _).
  destruct (A3 doc_c eq_refl) as (_ & _ & A4).
  destruct (getSticker_looks_at_last_only net_hollow net_hollow3 fresh
              (mkMessagesStickerSet "trolls" [DocumentEmpty 9])
              (mkMessagesStickerSet "others"
                 [DocumentPtr doc_a; DocumentPtr doc_b; DocumentEmpty 9])
              [] [DocumentPtr doc_a; DocumentPtr doc_b] (DocumentEmpty 9)
              eq_refl eq_refl eq_refl eq_refl) as (_ & _ & _ & B4).
  destruct (B4 9 eq_refl) as (_ & B5 & B6).
  split.
  - split; [reflexivity|]. split; [reflexivity|]. split; [exact A4|exact A1].
  - split; [reflexivity|]. split; [reflexivity|]. split; [exact B5|exact B6].
Defined.

Lemma statusLoop_resumes_witness :
  first_done [TickerC; TickerC] = None /\
  fst (statusLoop net_flaky ([TickerC; TickerC] ++ [TickerC; CtxDone Canceled]) fresh) =
    Returns (Some Canceled).
Proof.
  split; [reflexivity|].
  destruct (statusLoop_resumes net_flaky [TickerC; TickerC] [TickerC; CtxDone Canceled]
              fresh eq_refl) as (_ & H).
  rewrite H. reflexivity.
Defined.

Lemma Run_with_status_loop_returns_its_error_witness :
  Run net_ok true sample_schedule fresh = Some sample_final /\
  rc_main sample_final = RunReturned (Some (Wrapf "status loop: %w" Canceled)) /\
  In (SetupTask, None) (rc_exits sample_final) /\
  rc_parent sample_final = Some Canceled.
Proof.
  assert (H1 : Run net_ok true sample_schedule fresh = Some sample_final) by reflexivity.
  assert (H2 : rc_main sample_final =
               RunReturned (Some (Wrapf "status loop: %w" Canceled))) by reflexivity.
  assert (H3 : In (SetupTask, None) (rc_exits sample_final)) by (left; reflexivity).
  destruct (Run_with_status_loop_returns_its_error net_ok sample_schedule fresh
              sample_final _ H1 H2) as (_ & H).
  destruct (H H3) as (reason & Hpar & Hr).
  split; [exact H1|]. split; [exact H2|]. split; [exact H3|].
  injection Hr as <-. exact Hpar.
Defined.

Lemma Run_without_status_loop_witness :
  Run net_ok false quiet_schedule fresh = Some quiet_final /\
  rc_main quiet_final = RunReturned None /\
  rc_prog quiet_final = snd (setup net_ok fresh) /\
  rc_parent quiet_final <> None.
Proof.
  assert (H1 : Run net_ok false quiet_schedule fresh = Some quiet_final) by reflexivity.
  assert (H2 : rc_main quiet_final = RunReturned None) by reflexivity.
  destruct (Run_without_status_loop net_ok quiet_schedule fresh quiet_final None H1 H2)
    as (_ & Hp & Hc).
  split; [exact H1|]. split; [exact H2|]. split; [exact Hp|]. apply Hc. reflexivity.
Defined.

Lemma Run_resolves_once_witness :
  Run net_ok true sample_schedule fresh = Some sample_final /\
  count_resolve (trace (rc_prog sample_final)) = 1%nat.
Proof.
  assert (H1 : Run net_ok true sample_schedule fresh = Some sample_final) by reflexivity.
  destruct (Run_resolves_once net_ok true sample_schedule fresh sample_final H1)
    as (_ & _ & H).
  split; [exact H1|].
  apply (H (Some (Wrapf "status loop: %w" Canceled))). reflexivity.
Defined.
